(** * Voting.sol: a shallow embedding of the election contract

    The contract [Voting] (contracts/Voting.sol, Solidity ^0.8.19) is
    embedded as state-passing code over a record of its storage
    variables.  A call either commits a new storage or reverts; a
    reverted call leaves the storage (and the event log) as it was.
    Arithmetic on [uint] is the checked arithmetic of Solidity 0.8: an
    increment past [2^256 - 1] reverts with [Panic(0x11)], and a memory
    array longer than [2^64 - 1] is refused with [Panic(0x41)].  Gas is
    not modelled. *)

From stdpp Require Import gmap strings list.

Open Scope N_scope.

(** ** Values *)

(** [address] is a 160-bit and [uint] a 256-bit unsigned integer. *)
Abbreviation address := N (only parsing).
Abbreviation uint := N (only parsing).

Definition MAX_UINT : uint := 2 ^ 256 - 1.

(** Storage mappings are total in Solidity: a key that was never written
    reads as the zero value of the value type. *)
Definition rd_bool {K} `{Countable K} (m : gmap K bool) (k : K) : bool :=
  default false (m !! k).
Definition rd_uint {K} `{Countable K} (m : gmap K uint) (k : K) : uint :=
  default 0 (m !! k).
Definition rd_string {K} `{Countable K} (m : gmap K string) (k : K) : string :=
  default EmptyString (m !! k).

(** ** Events *)

Inductive Event : Type :=
| VoterRegistered (voter : address) (timestamp : uint)
| CandidateAdded (candidateId : uint) (name : string) (timestamp : uint)
| VoteCast (voter : address) (candidateId : uint) (timestamp : uint)
| VotingStatusChanged (active : bool) (timestamp : uint)
| AdminChanged (oldAdmin newAdmin : address) (timestamp : uint).

(** ** Storage *)

(** The seven state variables of the contract, and the log of the events
    emitted so far (oldest first). *)
Record State : Type := mkState {
  admin : address;
  registeredVoters : gmap address bool;
  hasVoted : gmap address bool;
  voteCounts : gmap uint uint;
  candidates : gmap uint string;
  candidateCount : uint;
  totalVotes : uint;
  votingActive : bool;
  events : list Event
}.

Definition set_admin (a : address) (s : State) : State :=
  mkState a (registeredVoters s) (hasVoted s) (voteCounts s) (candidates s)
          (candidateCount s) (totalVotes s) (votingActive s) (events s).
Definition set_registeredVoters (m : gmap address bool) (s : State) : State :=
  mkState (admin s) m (hasVoted s) (voteCounts s) (candidates s)
          (candidateCount s) (totalVotes s) (votingActive s) (events s).
Definition set_hasVoted (m : gmap address bool) (s : State) : State :=
  mkState (admin s) (registeredVoters s) m (voteCounts s) (candidates s)
          (candidateCount s) (totalVotes s) (votingActive s) (events s).
Definition set_voteCounts (m : gmap uint uint) (s : State) : State :=
  mkState (admin s) (registeredVoters s) (hasVoted s) m (candidates s)
          (candidateCount s) (totalVotes s) (votingActive s) (events s).
Definition set_candidates (m : gmap uint string) (s : State) : State :=
  mkState (admin s) (registeredVoters s) (hasVoted s) (voteCounts s) m
          (candidateCount s) (totalVotes s) (votingActive s) (events s).
Definition set_candidateCount (n : uint) (s : State) : State :=
  mkState (admin s) (registeredVoters s) (hasVoted s) (voteCounts s)
          (candidates s) n (totalVotes s) (votingActive s) (events s).
Definition set_totalVotes (n : uint) (s : State) : State :=
  mkState (admin s) (registeredVoters s) (hasVoted s) (voteCounts s)
          (candidates s) (candidateCount s) n (votingActive s) (events s).
Definition set_votingActive (b : bool) (s : State) : State :=
  mkState (admin s) (registeredVoters s) (hasVoted s) (voteCounts s)
          (candidates s) (candidateCount s) (totalVotes s) b (events s).
Definition log_event (e : Event) (s : State) : State :=
  mkState (admin s) (registeredVoters s) (hasVoted s) (voteCounts s)
          (candidates s) (candidateCount s) (totalVotes s) (votingActive s)
          (events s ++ [e]).

(** Storage before the constructor runs: every slot is zero. *)
Definition zero_storage : State :=
  mkState 0 ∅ ∅ ∅ ∅ 0 0 false [].

(** ** Reverts *)

Inductive Error : Type :=
| Reason (msg : string)   (* a failed [require(cond, msg)] *)
| Panic (code : N).       (* a failed compiler-inserted check *)

Definition ARITHMETIC_OVERFLOW : N := 0x11.
Definition INDEX_OUT_OF_BOUNDS : N := 0x32.
Definition ARRAY_TOO_LARGE : N := 0x41.

Inductive Result (A : Type) : Type :=
| Ok (a : A)
| Revert (e : Error).
Arguments Ok {A} a.
Arguments Revert {A} e.

#[global] Instance Result_ret : MRet Result := λ A a, Ok a.
#[global] Instance Result_bind : MBind Result := λ A B f r,
  match r with
  | Ok a => f a
  | Revert e => Revert e
  end.

(** Checked arithmetic of Solidity 0.8. *)
Definition checked_inc (x : uint) : Result uint :=
  if x <? MAX_UINT then Ok (x + 1) else Revert (Panic ARITHMETIC_OVERFLOW).
Definition checked_sub (x y : uint) : Result uint :=
  if y <=? x then Ok (x - y) else Revert (Panic ARITHMETIC_OVERFLOW).

(** ** The monad of state-changing functions *)

Definition M (A : Type) : Type := State → Result (A * State).

#[global] Instance M_ret : MRet M := λ A a s, Ok (a, s).
#[global] Instance M_bind : MBind M := λ A B f m s,
  match m s with
  | Ok (a, s') => f a s'
  | Revert e => Revert e
  end.

Definition gets {A} (f : State → A) : M A := λ s, Ok (f s, s).
Definition modify (f : State → State) : M unit := λ s, Ok (tt, f s).
Definition lift {A} (r : Result A) : M A := λ s,
  match r with
  | Ok a => Ok (a, s)
  | Revert e => Revert e
  end.
Definition require (cond : bool) (msg : string) : M unit := λ s,
  if cond then Ok (tt, s) else Revert (Reason msg).
Definition emit (e : Event) : M unit := modify (log_event e).

(** The transaction context a function body can read. *)
Record Env : Type := mkEnv {
  msg_sender : address;
  block_timestamp : uint
}.

(** ** Modifiers *)

Definition onlyAdmin {A} (env : Env) (body : M A) : M A :=
  a ← gets admin;
  require (msg_sender env =? a) "Only admin can perform this action";;
  body.

Definition onlyRegisteredVoter {A} (env : Env) (body : M A) : M A :=
  r ← gets (λ s, rd_bool (registeredVoters s) (msg_sender env));
  require r "You are not registered to vote";;
  body.

Definition hasNotVoted {A} (env : Env) (body : M A) : M A :=
  v ← gets (λ s, rd_bool (hasVoted s) (msg_sender env));
  require (negb v) "You have already voted";;
  body.

Definition votingIsActive {A} (body : M A) : M A :=
  a ← gets votingActive;
  require a "Voting is currently inactive";;
  body.

(** ** Constructor *)

Definition Voting_constructor (env : Env) : M unit :=
  modify (set_admin (msg_sender env));;
  modify (set_votingActive false);;
  modify (set_candidateCount 0);;
  modify (set_totalVotes 0);;
  a ← gets admin;
  emit (AdminChanged 0 a (block_timestamp env));;
  emit (VotingStatusChanged false (block_timestamp env)).

(** ** Admin functions *)

Definition registerVoter (env : Env) (_voter : address) : M unit :=
  onlyAdmin env (
    r ← gets (λ s, rd_bool (registeredVoters s) _voter);
    require (negb r) "Voter is already registered";;
    require (negb (_voter =? 0)) "Invalid voter address";;
    modify (λ s, set_registeredVoters (<[_voter := true]> (registeredVoters s)) s);;
    emit (VoterRegistered _voter (block_timestamp env))).

Definition addCandidate (env : Env) (_name : string) : M unit :=
  onlyAdmin env (
    require (0 <? N.of_nat (String.length _name)) "Candidate name cannot be empty";;
    require (N.of_nat (String.length _name) <=? 64) "Candidate name too long";;
    c ← gets candidateCount;
    c' ← lift (checked_inc c);
    modify (set_candidateCount c');;
    c ← gets candidateCount;
    modify (λ s, set_candidates (<[c := _name]> (candidates s)) s);;
    c ← gets candidateCount;
    emit (CandidateAdded c _name (block_timestamp env))).

Definition toggleVoting (env : Env) : M unit :=
  onlyAdmin env (
    a ← gets votingActive;
    modify (set_votingActive (negb a));;
    a ← gets votingActive;
    emit (VotingStatusChanged a (block_timestamp env))).

Definition transferAdmin (env : Env) (_newAdmin : address) : M unit :=
  onlyAdmin env (
    require (negb (_newAdmin =? 0)) "Invalid admin address";;
    a ← gets admin;
    require (negb (_newAdmin =? a)) "New admin cannot be the same as current admin";;
    oldAdmin ← gets admin;
    modify (set_admin _newAdmin);;
    emit (AdminChanged oldAdmin _newAdmin (block_timestamp env))).

(** ** Voting *)

Definition vote (env : Env) (_candidateId : uint) : M unit :=
  onlyRegisteredVoter env (hasNotVoted env (votingIsActive (
    c ← gets candidateCount;
    require ((0 <? _candidateId) && (_candidateId <=? c)) "Invalid candidate ID";;
    modify (λ s, set_hasVoted (<[msg_sender env := true]> (hasVoted s)) s);;
    n ← gets (λ s, rd_uint (voteCounts s) _candidateId);
    n' ← lift (checked_inc n);
    modify (λ s, set_voteCounts (<[_candidateId := n']> (voteCounts s)) s);;
    t ← gets totalVotes;
    t' ← lift (checked_inc t);
    modify (set_totalVotes t');;
    emit (VoteCast (msg_sender env) _candidateId (block_timestamp env))))).

(** ** View functions

    A view function reads the storage and returns a value or reverts.
    Memory arrays are lists: [new T[](n)] is [n] zero values, unless [n]
    exceeds [2^64 - 1], which the allocation refuses with [Panic(0x41)];
    a store checks the index against the length. *)

Definition MAX_ARRAY_LENGTH : uint := 2 ^ 64 - 1.

Definition new_array {A} (zero : A) (n : uint) : Result (list A) :=
  if n <=? MAX_ARRAY_LENGTH then Ok (replicate (N.to_nat n) zero)
  else Revert (Panic ARRAY_TOO_LARGE).

Definition array_store {A} (l : list A) (i : uint) (x : A) : Result (list A) :=
  if i <? N.of_nat (length l) then Ok (<[N.to_nat i := x]> l)
  else Revert (Panic INDEX_OUT_OF_BOUNDS).

(** [for (uint i = i0; i <= hi; i++) body]: the guard is tested before
    every round, and the counter is advanced by a checked increment
    after the body.  [fuel] bounds the number of guard tests; [None]
    means that the bound was reached. *)
Fixpoint for_le {A} (fuel : nat) (i hi : uint)
    (body : uint → A → Result A) (a : A) : option (Result A) :=
  match fuel with
  | O => None
  | S fuel' =>
      if i <=? hi then
        match body i a with
        | Ok a' =>
            match checked_inc i with
            | Ok i' => for_le fuel' i' hi body a'
            | Revert e => Some (Revert e)
            end
        | Revert e => Some (Revert e)
        end
      else Some (Ok a)
  end.

(** Local variables of [showResults]. *)
Record ResultsLocals : Type := mkResultsLocals {
  votes : list uint;
  names : list string;
  highestVoteCount : uint;
  winningCandidateId : uint
}.

Definition showResults_body (s : State) (i : uint) (l : ResultsLocals)
    : Result ResultsLocals :=
  j ← checked_sub i 1;
  vs ← array_store (votes l) j (rd_uint (voteCounts s) i);
  j ← checked_sub i 1;
  ns ← array_store (names l) j (rd_string (candidates s) i);
  if highestVoteCount l <? rd_uint (voteCounts s) i
  then Ok (mkResultsLocals vs ns (rd_uint (voteCounts s) i) i)
  else Ok (mkResultsLocals vs ns (highestVoteCount l) (winningCandidateId l)).

Definition showResults (s : State)
    : option (Result (list uint * list string * uint)) :=
  match new_array 0 (candidateCount s) with
  | Revert e => Some (Revert e)
  | Ok votes0 =>
      match new_array EmptyString (candidateCount s) with
      | Revert e => Some (Revert e)
      | Ok names0 =>
          if candidateCount s =? 0 then Some (Ok (votes0, names0, 0))
          else
            (λ r : Result ResultsLocals,
               l ← r; Ok (votes l, names l, winningCandidateId l))
            <$> for_le (S (N.to_nat (candidateCount s))) 1 (candidateCount s)
                  (showResults_body s) (mkResultsLocals votes0 names0 0 1)
      end
  end.

(** Local variables of [getWinner]: [(highestVoteCount, winningCandidateId)]. *)
Definition getWinner_body (s : State) (i : uint) (l : uint * uint)
    : Result (uint * uint) :=
  if fst l <? rd_uint (voteCounts s) i
  then Ok (rd_uint (voteCounts s) i, i)
  else Ok l.

Definition getWinner (s : State) : option (Result (string * uint * bool)) :=
  if candidateCount s =? 0 then Some (Ok (EmptyString, 0, false))
  else
    (λ r : Result (uint * uint),
       l ← r; Ok (rd_string (candidates s) (snd l), fst l, true))
    <$> for_le (S (N.to_nat (candidateCount s))) 1 (candidateCount s)
          (getWinner_body s) (0, 1).

Definition getCandidateInfo (s : State) (_candidateId : uint)
    : string * uint * bool :=
  if (_candidateId =? 0) || (candidateCount s <? _candidateId)
  then (EmptyString, 0, false)
  else (rd_string (candidates s) _candidateId,
        rd_uint (voteCounts s) _candidateId, true).

Definition getVoterStatus (s : State) (_voter : address) : bool * bool * bool :=
  let isRegistered := rd_bool (registeredVoters s) _voter in
  let hasVotedAlready := rd_bool (hasVoted s) _voter in
  let canVote := isRegistered && negb hasVotedAlready && votingActive s in
  (isRegistered, hasVotedAlready, canVote).

Definition getElectionStats (s : State) : uint * uint * bool * address :=
  (candidateCount s, totalVotes s, votingActive s, admin s).

(** ** Transactions

    A transaction runs one public function.  When the function reverts,
    every write it made is rolled back. *)

Inductive Outcome : Type :=
| Success
| Reverted (e : Error).

Definition transact (m : M unit) (s : State) : State * Outcome :=
  match m s with
  | Ok (_, s') => (s', Success)
  | Revert e => (s, Reverted e)
  end.

Inductive Call : Type :=
| CallRegisterVoter (_voter : address)
| CallAddCandidate (_name : string)
| CallToggleVoting
| CallTransferAdmin (_newAdmin : address)
| CallVote (_candidateId : uint).

Definition dispatch (env : Env) (c : Call) : M unit :=
  match c with
  | CallRegisterVoter v => registerVoter env v
  | CallAddCandidate n => addCandidate env n
  | CallToggleVoting => toggleVoting env
  | CallTransferAdmin a => transferAdmin env a
  | CallVote i => vote env i
  end.

(** The functions guarded by [onlyAdmin]. *)
Definition admin_only (c : Call) : bool :=
  match c with
  | CallVote _ => false
  | _ => true
  end.

Definition step (env : Env) (c : Call) (s : State) : State :=
  fst (transact (dispatch env c) s).

Definition deploy (env : Env) : State :=
  fst (transact (Voting_constructor env) zero_storage).

(** The storage after a sequence of transactions, each with its own
    sender and timestamp, whether they succeed or revert. *)
Definition run (tr : list (Env * Call)) (s : State) : State :=
  fold_left (λ s ec, step (fst ec) (snd ec) s) tr s.

(** The storages a run passes through, the starting one included. *)
Fixpoint states_of (tr : list (Env * Call)) (s : State) : list State :=
  match tr with
  | [] => [s]
  | ec :: tr' => s :: states_of tr' (step (fst ec) (snd ec) s)
  end.

(** ** The failures of the specification, as the contract reports them *)

Definition AccessDenied : Error := Reason "Only admin can perform this action".
Definition InvalidVoterAddress : Error := Reason "Invalid voter address".
Definition InvalidAdminAddress : Error := Reason "Invalid admin address".
Definition DuplicateRegistration : Error := Reason "Voter is already registered".
Definition NotRegistered : Error := Reason "You are not registered to vote".
Definition AlreadyVoted : Error := Reason "You have already voted".
Definition ElectionInactive : Error := Reason "Voting is currently inactive".
Definition InvalidCandidate : Error := Reason "Invalid candidate ID".
Definition EmptyName : Error := Reason "Candidate name cannot be empty".
Definition NameTooLong : Error := Reason "Candidate name too long".
Definition SameAuthority : Error :=
  Reason "New admin cannot be the same as current admin".

(** ** Quantities the properties are stated with *)

(** The candidate ids [1, 2, ..., n] in ascending order. *)
Definition candidate_ids (n : uint) : list uint :=
  N.of_nat <$> seq 1 (N.to_nat n).

(** The sum of [voteCounts] over all candidates. *)
Definition sum_votes (s : State) : N :=
  foldr N.add 0 (rd_uint (voteCounts s) <$> candidate_ids (candidateCount s)).

(** The ids carried by the [CandidateAdded] events of a log, in order. *)
Fixpoint added_ids (log : list Event) : list uint :=
  match log with
  | [] => []
  | CandidateAdded i _ _ :: log' => i :: added_ids log'
  | _ :: log' => added_ids log'
  end.

(** The number of places in a list of storages where [hasVoted[v]] goes
    from false to true between one storage and the next. *)
Fixpoint voted_flips (v : address) (l : list State) : nat :=
  match l with
  | s :: ((s' :: _) as l') =>
      (if negb (rd_bool (hasVoted s) v) && rd_bool (hasVoted s') v
       then 1 else 0)%nat + voted_flips v l'
  | _ => 0%nat
  end.

(** ** The specification's reading of an empty name *)

(** Following the specification's words ("trimmed length is 0"): the
    length of the name after the white space at both ends is removed. *)
Definition is_white_space (c : Ascii.ascii) : bool :=
  let n := Ascii.N_of_ascii c in
  (n =? 32) || ((9 <=? n) && (n <=? 13)).

Fixpoint drop_white_space (x : string) : string :=
  match x with
  | String c x' => if is_white_space c then drop_white_space x' else x
  | EmptyString => EmptyString
  end.

Definition spec_trim (x : string) : string :=
  String.rev (drop_white_space (String.rev (drop_white_space x))).

Definition spec_trimmed_length (x : string) : nat :=
  String.length (spec_trim x).

(** ** The specification's winner scan *)

(** Following the specification's words: "single linear scan; track
    highest=0, winner=1 (default); for each candidate in ascending id
    order, if voteCount > highest then update highest and winner".  The
    pair is [(highest, winner)]. *)
Definition spec_scan_step (count : uint → uint) (hw : uint * uint) (i : uint)
    : uint * uint :=
  if fst hw <? count i then (count i, i) else hw.

Definition spec_linear_scan (count : uint → uint) (ids : list uint) : uint * uint :=
  fold_left (spec_scan_step count) ids (0, 1).

(** ** The storages the functions commit *)

(** The post-state of a successful [vote]. *)
Definition voted_state (env : Env) (_candidateId : uint) (s : State) : State :=
  mkState (admin s) (registeredVoters s)
    (<[msg_sender env := true]> (hasVoted s))
    (<[_candidateId := rd_uint (voteCounts s) _candidateId + 1]> (voteCounts s))
    (candidates s) (candidateCount s) (totalVotes s + 1) (votingActive s)
    (events s ++ [VoteCast (msg_sender env) _candidateId (block_timestamp env)]).

(** The post-states of the four admin functions. *)
Definition registered_state (env : Env) (_voter : address) (s : State) : State :=
  mkState (admin s) (<[_voter := true]> (registeredVoters s)) (hasVoted s)
    (voteCounts s) (candidates s) (candidateCount s) (totalVotes s)
    (votingActive s)
    (events s ++ [VoterRegistered _voter (block_timestamp env)]).

Definition candidate_added_state (env : Env) (_name : string) (s : State) : State :=
  mkState (admin s) (registeredVoters s) (hasVoted s) (voteCounts s)
    (<[candidateCount s + 1 := _name]> (candidates s))
    (candidateCount s + 1) (totalVotes s) (votingActive s)
    (events s ++ [CandidateAdded (candidateCount s + 1) _name (block_timestamp env)]).

Definition toggled_state (env : Env) (s : State) : State :=
  mkState (admin s) (registeredVoters s) (hasVoted s) (voteCounts s)
    (candidates s) (candidateCount s) (totalVotes s) (negb (votingActive s))
    (events s ++ [VotingStatusChanged (negb (votingActive s)) (block_timestamp env)]).

Definition transferred_state (env : Env) (_newAdmin : address) (s : State) : State :=
  mkState _newAdmin (registeredVoters s) (hasVoted s) (voteCounts s)
    (candidates s) (candidateCount s) (totalVotes s) (votingActive s)
    (events s ++ [AdminChanged (admin s) _newAdmin (block_timestamp env)]).

(** ** Transactions as a step relation *)

(** [commits env s c s']: call [c] in context [env] passes all its checks
    in storage [s] and commits storage [s']. *)
Inductive commits (env : Env) (s : State) : Call → State → Prop :=
| commits_registerVoter v :
    msg_sender env = admin s →
    rd_bool (registeredVoters s) v = false →
    v ≠ 0 →
    commits env s (CallRegisterVoter v) (registered_state env v s)
| commits_addCandidate name :
    msg_sender env = admin s →
    (1 ≤ String.length name ≤ 64)%nat →
    candidateCount s < MAX_UINT →
    commits env s (CallAddCandidate name) (candidate_added_state env name s)
| commits_toggleVoting :
    msg_sender env = admin s →
    commits env s CallToggleVoting (toggled_state env s)
| commits_transferAdmin a :
    msg_sender env = admin s →
    a ≠ 0 →
    a ≠ admin s →
    commits env s (CallTransferAdmin a) (transferred_state env a s)
| commits_vote id :
    rd_bool (registeredVoters s) (msg_sender env) = true →
    rd_bool (hasVoted s) (msg_sender env) = false →
    votingActive s = true →
    1 ≤ id ≤ candidateCount s →
    rd_uint (voteCounts s) id < MAX_UINT →
    totalVotes s < MAX_UINT →
    commits env s (CallVote id) (voted_state env id s).

(** ** Invariants of the reachable storages *)

(** The tally: [totalVotes] is the sum of the counts, and no count is
    stored beyond [candidateCount]. *)
Definition tally_ok (s : State) : Prop :=
  totalVotes s = sum_votes s ∧
  ∀ i, candidateCount s < i → rd_uint (voteCounts s) i = 0.

(** The registry: the zero address is not registered, and only
    registered addresses have voted. *)
Definition registry_ok (s : State) : Prop :=
  rd_bool (registeredVoters s) 0 = false ∧
  ∀ v, rd_bool (hasVoted s) v = true → rd_bool (registeredVoters s) v = true.

(** The three counters stay within [uint]. *)
Definition in_range (s : State) : Prop :=
  candidateCount s ≤ MAX_UINT ∧
  totalVotes s ≤ MAX_UINT ∧
  ∀ i, rd_uint (voteCounts s) i ≤ MAX_UINT.

(** The roster: the [CandidateAdded] events carry the ids 1, 2, ... up
    to [candidateCount], in this order. *)
Definition roster_ok (s : State) : Prop :=
  added_ids (events s) = candidate_ids (candidateCount s).

(** ** Invariants of the two result loops *)

(** What the scan has established after the candidates 1 .. [k]. *)
Definition scanned (count : uint → uint) (k : uint) (hw : uint * uint) : Prop :=
  1 ≤ snd hw ∧
  (snd hw ≤ k ∨ hw = (0, 1)) ∧
  (∀ j, 1 ≤ j ≤ k → count j ≤ fst hw) ∧
  (∀ j, 1 ≤ j < snd hw → j ≤ k → count j < fst hw) ∧
  (snd hw ≤ k → fst hw = count (snd hw)).

(** Loop invariant of [showResults] on entering round [i]: the first
    [i - 1] slots of both arrays are filled, the rest still zero, and the
    winner variables are what the scan gives for candidates 1 .. [i - 1]. *)
Definition results_so_far (s : State) (i : uint) (l : ResultsLocals) : Prop :=
  1 ≤ i ≤ candidateCount s + 1 ∧
  votes l = (rd_uint (voteCounts s) <$> candidate_ids (i - 1))
            ++ replicate (N.to_nat (candidateCount s + 1 - i)) 0 ∧
  names l = (rd_string (candidates s) <$> candidate_ids (i - 1))
            ++ replicate (N.to_nat (candidateCount s + 1 - i)) EmptyString ∧
  (highestVoteCount l, winningCandidateId l)
  = spec_linear_scan (rd_uint (voteCounts s)) (candidate_ids (i - 1)).

(** ** A sample election

    The admin registers two voters, adds the candidates Alice and Bob
    and opens the vote. *)

Definition authority0 : address := 1000.
Definition voterA : address := 2001.
Definition voterB : address := 2002.
Definition ballot_setup : list (Env * Call) :=
  [ (mkEnv authority0 11, CallRegisterVoter voterA);
    (mkEnv authority0 12, CallRegisterVoter voterB);
    (mkEnv authority0 13, CallAddCandidate "Alice");
    (mkEnv authority0 14, CallAddCandidate "Bob");
    (mkEnv authority0 15, CallToggleVoting) ].
Definition ballot_open : State := run ballot_setup (deploy (mkEnv authority0 10)).

(** Then voter A votes for Alice and voter B for Bob: a tie. *)
Definition ballot_votes : list (Env * Call) :=
  [ (mkEnv voterA 20, CallVote 1);
    (mkEnv voterB 21, CallVote 2) ].
Definition ballot_tied : State := run ballot_votes ballot_open.

(** ** Quantities read off the log and the flag mappings *)

Definition is_VoterRegistered (e : Event) : bool :=
  match e with VoterRegistered _ _ => true | _ => false end.
Definition is_CandidateAdded (e : Event) : bool :=
  match e with CandidateAdded _ _ _ => true | _ => false end.
Definition is_VoteCast (e : Event) : bool :=
  match e with VoteCast _ _ _ => true | _ => false end.

(** The number of events of one kind in a log. *)
Fixpoint count_events (kind : Event → bool) (log : list Event) : N :=
  match log with
  | [] => 0
  | e :: log' => (if kind e then 1 else 0) + count_events kind log'
  end.

(** The new admin of the last [AdminChanged] event of a log ([a] when
    there is none), and the flag of its last [VotingStatusChanged] event
    ([b] when there is none). *)
Fixpoint last_AdminChanged (a : address) (log : list Event) : address :=
  match log with
  | [] => a
  | AdminChanged _ newAdmin _ :: log' => last_AdminChanged newAdmin log'
  | _ :: log' => last_AdminChanged a log'
  end.

Fixpoint last_VotingStatusChanged (b : bool) (log : list Event) : bool :=
  match log with
  | [] => b
  | VotingStatusChanged active _ :: log' => last_VotingStatusChanged active log'
  | _ :: log' => last_VotingStatusChanged b log'
  end.

(** The addresses whose flag reads true in a [mapping(address => bool)]. *)
Definition flagged (m : gmap address bool) : gset address :=
  dom (filter (λ kv, snd kv = true) m).

(** ** Further invariants of the reachable storages *)

(** The ballot box: one vote per address that has voted. *)
Definition ballots_ok (s : State) : Prop :=
  totalVotes s = N.of_nat (size (flagged (hasVoted s))).

(** The log against the storage. *)
Definition audit_ok (s : State) : Prop :=
  count_events is_VoteCast (events s) = totalVotes s ∧
  count_events is_CandidateAdded (events s) = candidateCount s ∧
  count_events is_VoterRegistered (events s)
  = N.of_nat (size (flagged (registeredVoters s))) ∧
  last_AdminChanged 0 (events s) = admin s ∧
  last_VotingStatusChanged false (events s) = votingActive s.

(** The candidate slots: ids 1 .. [candidateCount] hold a name of 1 to
    64 bytes, every other id holds nothing. *)
Definition slots_ok (s : State) : Prop :=
  ∀ i,
    (1 ≤ i ≤ candidateCount s →
       (1 ≤ String.length (rd_string (candidates s) i) ≤ 64)%nat) ∧
    (¬ (1 ≤ i ≤ candidateCount s) →
       rd_string (candidates s) i = EmptyString ∧
       rd_uint (voteCounts s) i = 0).

(** ** The input checks of the front end

    [validateEthereumAddress] and [validateCandidateName]
    (frontend/js, and again in the admin panel script) guard the forms
    that call [registerVoter], [transferAdmin] and [addCandidate].  A
    JavaScript string is a sequence of UTF-16 code units, here a list of
    numbers; the value of a check is its truthiness. *)

(** The WhiteSpace and LineTerminator code points of ECMAScript, which
    [String.prototype.trim] strips from both ends. *)
Definition is_js_white_space (u : N) : bool :=
  ((0x9 <=? u) && (u <=? 0xD)) || (u =? 0x20) || (u =? 0xA0) || (u =? 0x1680)
  || ((0x2000 <=? u) && (u <=? 0x200A)) || (u =? 0x2028) || (u =? 0x2029)
  || (u =? 0x202F) || (u =? 0x205F) || (u =? 0x3000) || (u =? 0xFEFF).

Fixpoint js_trimStart (x : list N) : list N :=
  match x with
  | u :: x' => if is_js_white_space u then js_trimStart x' else x
  | [] => []
  end.

Definition js_trimEnd (x : list N) : list N := rev (js_trimStart (rev x)).

Definition js_trim (x : list N) : list N := js_trimEnd (js_trimStart x).

(** [name && name.trim().length > 0 && name.trim().length <= 64] *)
Definition validateCandidateName (name : list N) : bool :=
  negb (bool_decide (name = []))
  && (0 <? length (js_trim name))%nat
  && (length (js_trim name) <=? 64)%nat.

(** [[a-fA-F0-9]] *)
Definition is_hex_digit (u : N) : bool :=
  ((0x61 <=? u) && (u <=? 0x66)) || ((0x41 <=? u) && (u <=? 0x46))
  || ((0x30 <=? u) && (u <=? 0x39)).

(** [/^0x[a-fA-F0-9]{40}$/.test(address)] *)
Definition validateEthereumAddress (address : list N) : bool :=
  match address with
  | u0 :: u1 :: digits =>
      (u0 =? 0x30) && (u1 =? 0x78) && (length digits =? 40)%nat
      && forallb is_hex_digit digits
  | _ => false
  end.

(** The address a string of the form 0x... denotes: the number its hex
    digits spell. *)
Definition hex_digit_value (u : N) : N :=
  if (0x30 <=? u) && (u <=? 0x39) then u - 0x30
  else if (0x41 <=? u) && (u <=? 0x46) then u - 0x41 + 10
  else u - 0x61 + 10.

Definition hex_value (digits : list N) : N :=
  fold_left (λ acc u, 16 * acc + hex_digit_value u) digits 0.

Definition address_value (a : list N) : address := hex_value (drop 2 a).

(** The bytes of a string of ASCII code units (its UTF-8 encoding). *)
Fixpoint ascii_bytes (x : list N) : string :=
  match x with
  | [] => EmptyString
  | u :: x' => String (Ascii.ascii_of_N u) (ascii_bytes x')
  end.

(** "0x" followed by forty zeros, and the name "Carol". *)
Definition zero_address_text : list N := [0x30; 0x78] ++ replicate 40 0x30.
Definition carol_text : list N := [0x43; 0x61; 0x72; 0x6F; 0x6C].

(** * Verification *)

(** ** Running the function bodies *)

Ltac unfold_monad :=
  unfold onlyAdmin, onlyRegisteredVoter, hasNotVoted, votingIsActive,
    gets, modify, require, emit, lift, checked_inc,
    mbind, M_bind, mret, M_ret in *.

(** Reduce projections of the storage record and the record setters. *)
Ltac simpl_storage :=
  cbn [admin registeredVoters hasVoted voteCounts candidates candidateCount
       totalVotes votingActive events set_admin set_registeredVoters
       set_hasVoted set_voteCounts set_candidates set_candidateCount
       set_totalVotes set_votingActive log_event negb fst snd] in *.

(** Split on the guard at the head of the goal. *)
Ltac split_guard :=
  match goal with
  | |- context [if negb ?b then _ else _] =>
      destruct b eqn:?; simpl_storage; try reflexivity
  | |- context [if ?b then _ else _] =>
      destruct b eqn:?; simpl_storage; try reflexivity
  end.

(** Reading a mapping after a write. *)
Lemma rd_bool_insert (m : gmap address bool) (k k' : address) (b : bool) :
  rd_bool (<[k := b]> m) k' = if decide (k = k') then b else rd_bool m k'.
Proof.
  unfold rd_bool. rewrite lookup_insert. destruct (decide (k = k')); reflexivity.
Qed.

Lemma rd_uint_insert (m : gmap uint uint) (k k' : uint) (n : uint) :
  rd_uint (<[k := n]> m) k' = if decide (k = k') then n else rd_uint m k'.
Proof.
  unfold rd_uint. rewrite lookup_insert. destruct (decide (k = k')); reflexivity.
Qed.

Lemma rd_string_insert (m : gmap uint string) (k k' : uint) (x : string) :
  rd_string (<[k := x]> m) k' = if decide (k = k') then x else rd_string m k'.
Proof.
  unfold rd_string. rewrite lookup_insert. destruct (decide (k = k')); reflexivity.
Qed.

Lemma vote_eq env id s :
  vote env id s =
    if negb (rd_bool (registeredVoters s) (msg_sender env)) then Revert NotRegistered
    else if rd_bool (hasVoted s) (msg_sender env) then Revert AlreadyVoted
    else if negb (votingActive s) then Revert ElectionInactive
    else if negb ((0 <? id) && (id <=? candidateCount s)) then Revert InvalidCandidate
    else if negb (rd_uint (voteCounts s) id <? MAX_UINT) then Revert (Panic ARITHMETIC_OVERFLOW)
    else if negb (totalVotes s <? MAX_UINT) then Revert (Panic ARITHMETIC_OVERFLOW)
    else Ok (tt, voted_state env id s).
Proof.
  unfold vote. unfold_monad. simpl_storage.
  repeat split_guard.
Qed.

Lemma registerVoter_eq env v s :
  registerVoter env v s =
    if negb (msg_sender env =? admin s) then Revert AccessDenied
    else if rd_bool (registeredVoters s) v then Revert DuplicateRegistration
    else if v =? 0 then Revert InvalidVoterAddress
    else Ok (tt, registered_state env v s).
Proof.
  unfold registerVoter. unfold_monad. simpl_storage.
  repeat split_guard.
Qed.

Lemma addCandidate_eq env name s :
  addCandidate env name s =
    if negb (msg_sender env =? admin s) then Revert AccessDenied
    else if negb (0 <? N.of_nat (String.length name)) then Revert EmptyName
    else if negb (N.of_nat (String.length name) <=? 64) then Revert NameTooLong
    else if negb (candidateCount s <? MAX_UINT) then Revert (Panic ARITHMETIC_OVERFLOW)
    else Ok (tt, candidate_added_state env name s).
Proof.
  unfold addCandidate. unfold_monad. simpl_storage.
  repeat split_guard.
Qed.

Lemma toggleVoting_eq env s :
  toggleVoting env s =
    if negb (msg_sender env =? admin s) then Revert AccessDenied
    else Ok (tt, toggled_state env s).
Proof.
  unfold toggleVoting. unfold_monad. simpl_storage.
  repeat split_guard.
Qed.

Lemma transferAdmin_eq env a s :
  transferAdmin env a s =
    if negb (msg_sender env =? admin s) then Revert AccessDenied
    else if a =? 0 then Revert InvalidAdminAddress
    else if a =? admin s then Revert SameAuthority
    else Ok (tt, transferred_state env a s).
Proof.
  unfold transferAdmin. unfold_monad. simpl_storage.
  repeat split_guard.
Qed.

Lemma deploy_eq env :
  deploy env =
    mkState (msg_sender env) ∅ ∅ ∅ ∅ 0 0 false
      [AdminChanged 0 (msg_sender env) (block_timestamp env);
       VotingStatusChanged false (block_timestamp env)].
Proof. reflexivity. Qed.

(** Every transaction has an outcome, and a reverted one changes nothing. *)
Lemma transact_reverted m s e :
  snd (transact m s) = Reverted e → fst (transact m s) = s.
Proof.
  unfold transact. destruct (m s) as [[[] s']|e']; cbn; [discriminate | reflexivity].
Qed.

(** ** Casting a vote *)

Lemma transact_vote env id s :
  transact (vote env id) s =
    if negb (rd_bool (registeredVoters s) (msg_sender env)) then (s, Reverted NotRegistered)
    else if rd_bool (hasVoted s) (msg_sender env) then (s, Reverted AlreadyVoted)
    else if negb (votingActive s) then (s, Reverted ElectionInactive)
    else if negb ((0 <? id) && (id <=? candidateCount s)) then (s, Reverted InvalidCandidate)
    else if negb (rd_uint (voteCounts s) id <? MAX_UINT) then (s, Reverted (Panic ARITHMETIC_OVERFLOW))
    else if negb (totalVotes s <? MAX_UINT) then (s, Reverted (Panic ARITHMETIC_OVERFLOW))
    else (voted_state env id s, Success).
Proof.
  unfold transact. rewrite vote_eq. repeat split_guard.
Qed.

Lemma valid_id_true (id n : uint) :
  (0 <? id) && (id <=? n) = true ↔ 1 ≤ id ≤ n.
Proof.
  rewrite andb_true_iff, N.ltb_lt, N.leb_le. lia.
Qed.

Lemma transact_vote_success env id s s' :
  transact (vote env id) s = (s', Success) →
  rd_bool (registeredVoters s) (msg_sender env) = true ∧
  rd_bool (hasVoted s) (msg_sender env) = false ∧
  votingActive s = true ∧
  1 ≤ id ≤ candidateCount s ∧
  rd_uint (voteCounts s) id < MAX_UINT ∧
  totalVotes s < MAX_UINT ∧
  s' = voted_state env id s.
Proof.
  rewrite transact_vote.
  destruct (rd_bool (registeredVoters s) (msg_sender env)); cbn [negb]; [|discriminate].
  destruct (rd_bool (hasVoted s) (msg_sender env)); [discriminate|].
  destruct (votingActive s); cbn [negb]; [|discriminate].
  destruct ((0 <? id) && (id <=? candidateCount s)) eqn:Hid; cbn [negb]; [|discriminate].
  destruct (rd_uint (voteCounts s) id <? MAX_UINT) eqn:Hv; cbn [negb]; [|discriminate].
  destruct (totalVotes s <? MAX_UINT) eqn:Ht; cbn [negb]; [|discriminate].
  intros [= <-]. apply valid_id_true in Hid. apply N.ltb_lt in Hv, Ht. auto 10.
Qed.

(** C1.  [vote] tests, in this order, that the caller is registered, that
    the caller has not voted, that voting is active, and that the
    candidate id is between 1 and [candidateCount]; the first test that
    fails decides the failure, the four failures are pairwise distinct,
    and a failed call leaves the storage and the log as they were.  A
    successful call ends in [voted_state]: the caller's [hasVoted] flag
    is set, the candidate's count and [totalVotes] are one higher, and
    one [VoteCast] event is appended.  The call ends either in the
    untouched storage or in [voted_state], never in between; and it does
    succeed when the four tests pass and the two counters are below
    [MAX_UINT]. *)
Theorem vote_checks_in_order_and_commits_atomically (s : State) (env : Env) (id : uint) :
  let p := msg_sender env in
  let registered := rd_bool (registeredVoters s) p in
  let voted := rd_bool (hasVoted s) p in
  let after := transact (vote env id) s in
  (registered = false → after = (s, Reverted NotRegistered)) ∧
  (registered = true → voted = true → after = (s, Reverted AlreadyVoted)) ∧
  (registered = true → voted = false → votingActive s = false →
     after = (s, Reverted ElectionInactive)) ∧
  (registered = true → voted = false → votingActive s = true →
     ¬ (1 ≤ id ≤ candidateCount s) → after = (s, Reverted InvalidCandidate)) ∧
  NoDup [NotRegistered; AlreadyVoted; ElectionInactive; InvalidCandidate] ∧
  (∀ e, snd after = Reverted e → fst after = s) ∧
  (snd after = Success →
     registered = true ∧ voted = false ∧ votingActive s = true ∧
     1 ≤ id ≤ candidateCount s ∧ fst after = voted_state env id s) ∧
  (fst after = s ∨ fst after = voted_state env id s) ∧
  (rd_bool (hasVoted (voted_state env id s)) p = true ∧
   rd_uint (voteCounts (voted_state env id s)) id = rd_uint (voteCounts s) id + 1 ∧
   totalVotes (voted_state env id s) = totalVotes s + 1 ∧
   events (voted_state env id s) = events s ++ [VoteCast p id (block_timestamp env)]) ∧
  (registered = true → voted = false → votingActive s = true →
     1 ≤ id ≤ candidateCount s →
     rd_uint (voteCounts s) id < MAX_UINT → totalVotes s < MAX_UINT →
     after = (voted_state env id s, Success)).
Proof.
  intros p registered voted after.
  assert (Hrun := transact_vote env id s). fold after p in Hrun. fold registered voted in Hrun.
  split_and!.
  - intros Hr. rewrite Hrun, Hr. reflexivity.
  - intros Hr Hv. rewrite Hrun, Hr, Hv. reflexivity.
  - intros Hr Hv Ha. rewrite Hrun, Hr, Hv, Ha. reflexivity.
  - intros Hr Hv Ha Hid. rewrite Hrun, Hr, Hv, Ha. cbn [negb].
    destruct ((0 <? id) && (id <=? candidateCount s)) eqn:E; [|reflexivity].
    apply valid_id_true in E. contradiction.
  - repeat constructor; unfold NotRegistered, AlreadyVoted, ElectionInactive,
      InvalidCandidate; rewrite ?elem_of_cons; rewrite ?elem_of_nil;
      intuition discriminate.
  - apply transact_reverted.
  - intros H. destruct after as [s' o] eqn:E. cbn in H. subst o.
    apply transact_vote_success in E. cbn. tauto.
  - assert (Hrev := transact_reverted (vote env id) s). fold after in Hrev.
    destruct after as [s' [|e]] eqn:E.
    + apply transact_vote_success in E. cbn. tauto.
    + left. apply (Hrev e). reflexivity.
  - unfold voted_state. simpl_storage. rewrite rd_bool_insert.
    rewrite decide_True by reflexivity. reflexivity.
  - unfold voted_state. simpl_storage. rewrite rd_uint_insert.
    rewrite decide_True by reflexivity. reflexivity.
  - reflexivity.
  - reflexivity.
  - intros Hr Hv Ha Hid Hc Ht. rewrite Hrun, Hr, Hv, Ha. cbn [negb].
    apply valid_id_true in Hid. apply N.ltb_lt in Hc, Ht. rewrite Hid, Hc, Ht.
    reflexivity.
Qed.

Lemma vote_checks_in_order_and_commits_atomically_witness :
  transact (vote (mkEnv voterA 20) 2) ballot_open
  = (voted_state (mkEnv voterA 20) 2 ballot_open, Success).
Proof.
  apply (vote_checks_in_order_and_commits_atomically ballot_open (mkEnv voterA 20) 2);
    vm_compute; first [reflexivity | split; discriminate].
Defined.

(** C10.  A successful [vote] changes nothing but the caller's [hasVoted]
    flag, the chosen candidate's count, [totalVotes] and the log: the
    admin, the activation flag, [candidateCount], all candidate names,
    all registrations, every other candidate's count and every other
    address's [hasVoted] flag are as before. *)
Theorem vote_frame (s s' : State) (env : Env) (id : uint) :
  transact (vote env id) s = (s', Success) →
  admin s' = admin s ∧
  votingActive s' = votingActive s ∧
  candidateCount s' = candidateCount s ∧
  candidates s' = candidates s ∧
  registeredVoters s' = registeredVoters s ∧
  (∀ j, j ≠ id → rd_uint (voteCounts s') j = rd_uint (voteCounts s) j) ∧
  (∀ v, v ≠ msg_sender env → rd_bool (hasVoted s') v = rd_bool (hasVoted s) v).
Proof.
  intros H. apply transact_vote_success in H.
  destruct H as (_ & _ & _ & _ & _ & _ & ->). cbn.
  repeat split; try reflexivity.
  - intros j Hj. rewrite rd_uint_insert. destruct (decide (id = j)); congruence.
  - intros v Hv. rewrite rd_bool_insert.
    destruct (decide (msg_sender env = v)); congruence.
Qed.

Lemma vote_frame_witness :
  admin (voted_state (mkEnv voterA 20) 2 ballot_open) = admin ballot_open ∧
  candidates (voted_state (mkEnv voterA 20) 2 ballot_open) = candidates ballot_open ∧
  rd_uint (voteCounts (voted_state (mkEnv voterA 20) 2 ballot_open)) 1
  = rd_uint (voteCounts ballot_open) 1 ∧
  rd_bool (hasVoted (voted_state (mkEnv voterA 20) 2 ballot_open)) voterB
  = rd_bool (hasVoted ballot_open) voterB.
Proof.
  destruct (vote_frame ballot_open (voted_state (mkEnv voterA 20) 2 ballot_open)
              (mkEnv voterA 20) 2) as (Ha & _ & _ & Hn & _ & Hc & Hv).
  - vm_compute. reflexivity.
  - split_and!; [exact Ha | exact Hn | apply Hc; lia | apply Hv].
    unfold voterA, voterB. cbn [msg_sender]. lia.
Defined.

(** ** Every transaction reverts or commits *)

Lemma name_length_ok (name : string) :
  (0 <? N.of_nat (String.length name)) = true →
  (N.of_nat (String.length name) <=? 64) = true →
  (1 ≤ String.length name ≤ 64)%nat.
Proof. rewrite N.ltb_lt, N.leb_le. lia. Qed.

(** A transaction either reverts and leaves the storage alone, or
    commits as [commits] says. *)
Lemma transact_cases env c s :
  (∃ e, transact (dispatch env c) s = (s, Reverted e)) ∨
  (∃ s', transact (dispatch env c) s = (s', Success) ∧ commits env s c s').
Proof.
  destruct c as [v|name| |a|id]; cbn [dispatch].
  - unfold transact. rewrite registerVoter_eq.
    destruct (msg_sender env =? admin s) eqn:Ha; cbn [negb]; [|eauto].
    destruct (rd_bool (registeredVoters s) v) eqn:Hr; [eauto|].
    destruct (v =? 0) eqn:Hv; [eauto|].
    right. eexists. split; [reflexivity|].
    apply N.eqb_eq in Ha. apply N.eqb_neq in Hv. by constructor.
  - unfold transact. rewrite addCandidate_eq.
    destruct (msg_sender env =? admin s) eqn:Ha; cbn [negb]; [|eauto].
    destruct (0 <? N.of_nat (String.length name)) eqn:H0; cbn [negb]; [|eauto].
    destruct (N.of_nat (String.length name) <=? 64) eqn:H1; cbn [negb]; [|eauto].
    destruct (candidateCount s <? MAX_UINT) eqn:Hc; cbn [negb]; [|eauto].
    right. eexists. split; [reflexivity|].
    apply N.eqb_eq in Ha. apply N.ltb_lt in Hc.
    constructor; auto using name_length_ok.
  - unfold transact. rewrite toggleVoting_eq.
    destruct (msg_sender env =? admin s) eqn:Ha; cbn [negb]; [|eauto].
    right. eexists. split; [reflexivity|].
    apply N.eqb_eq in Ha. by constructor.
  - unfold transact. rewrite transferAdmin_eq.
    destruct (msg_sender env =? admin s) eqn:Ha; cbn [negb]; [|eauto].
    destruct (a =? 0) eqn:Hz; [eauto|].
    destruct (a =? admin s) eqn:Hs; [eauto|].
    right. eexists. split; [reflexivity|].
    apply N.eqb_eq in Ha. apply N.eqb_neq in Hz, Hs. by constructor.
  - destruct (transact (vote env id) s) as [s' [|e]] eqn:E.
    + right. exists s'. split; [reflexivity|].
      apply transact_vote_success in E.
      destruct E as (? & ? & ? & ? & ? & ? & ->). by constructor.
    + left. exists e.
      assert (Hs := transact_reverted (vote env id) s e).
      rewrite E in Hs. cbn in Hs. by rewrite Hs.
Qed.

Lemma step_cases env c s :
  step env c s = s ∨ commits env s c (step env c s).
Proof.
  unfold step.
  destruct (transact_cases env c s) as [[e ->]|[s' [-> H]]]; auto.
Qed.

(** ** Sums over the candidate ids *)

Lemma candidate_ids_succ (n : uint) :
  candidate_ids (n + 1) = candidate_ids n ++ [n + 1].
Proof.
  unfold candidate_ids.
  replace (N.to_nat (n + 1)) with (S (N.to_nat n)) by lia.
  rewrite seq_S, fmap_app. cbn [fmap list_fmap]. do 2 f_equal. lia.
Qed.

Lemma elem_of_candidate_ids (n i : uint) :
  i ∈ candidate_ids n ↔ 1 ≤ i ≤ n.
Proof.
  unfold candidate_ids. rewrite list_elem_of_fmap. split.
  - intros (k & -> & Hk). apply list_elem_of_In, in_seq in Hk. lia.
  - intros Hi. exists (N.to_nat i). split; [lia|].
    apply list_elem_of_In, in_seq. lia.
Qed.

Lemma NoDup_candidate_ids (n : uint) : NoDup (candidate_ids n).
Proof.
  unfold candidate_ids. apply NoDup_fmap_2.
  - intros x y Hxy. lia.
  - apply NoDup_seq.
Qed.

Lemma length_candidate_ids (n : uint) : length (candidate_ids n) = N.to_nat n.
Proof. unfold candidate_ids. by rewrite length_fmap, length_seq. Qed.

Lemma sum_insert_notin (m : gmap uint uint) (l : list uint) (k x : uint) :
  k ∉ l →
  foldr N.add 0 (rd_uint (<[k := x]> m) <$> l) = foldr N.add 0 (rd_uint m <$> l).
Proof.
  induction l as [|i l IH]; [reflexivity|].
  rewrite not_elem_of_cons. intros [Hne Hl]. cbn.
  rewrite rd_uint_insert, IH by assumption.
  destruct (decide (k = i)); congruence.
Qed.

Lemma sum_insert_in (m : gmap uint uint) (l : list uint) (k x : uint) :
  NoDup l → k ∈ l →
  foldr N.add 0 (rd_uint (<[k := x]> m) <$> l) + rd_uint m k
  = foldr N.add 0 (rd_uint m <$> l) + x.
Proof.
  induction l as [|i l IH]; [by rewrite elem_of_nil|].
  rewrite NoDup_cons, elem_of_cons. intros [Hi Hnd] Hk. cbn.
  rewrite rd_uint_insert. destruct (decide (k = i)) as [->|Hne].
  - rewrite sum_insert_notin by assumption. lia.
  - destruct Hk as [?|Hk]; [congruence|]. specialize (IH Hnd Hk). lia.
Qed.

Lemma sum_votes_snoc (f : uint → uint) (l : list uint) (i : uint) :
  foldr N.add 0 (f <$> (l ++ [i])) = foldr N.add 0 (f <$> l) + f i.
Proof.
  induction l as [|j l IH]; cbn; [lia|]. rewrite IH. lia.
Qed.

(** ** The invariants are kept *)

Lemma added_ids_app (l1 l2 : list Event) :
  added_ids (l1 ++ l2) = added_ids l1 ++ added_ids l2.
Proof.
  induction l1 as [|[] l1 IH]; cbn; congruence.
Qed.

Lemma tally_ok_commits env s c s' :
  commits env s c s' → tally_ok s → tally_ok s'.
Proof.
  unfold tally_ok, sum_votes. intros Hc [Hsum Hzero].
  destruct Hc; cbn [registered_state candidate_added_state toggled_state
    transferred_state voted_state totalVotes voteCounts candidateCount];
    try (split; assumption).
  - split.
    + rewrite candidate_ids_succ, sum_votes_snoc, Hzero by lia. lia.
    + intros i Hi. apply Hzero. lia.
  - split.
    + pose proof (sum_insert_in (voteCounts s) (candidate_ids (candidateCount s))
        id (rd_uint (voteCounts s) id + 1) (NoDup_candidate_ids _)) as Hin.
      rewrite elem_of_candidate_ids in Hin. specialize (Hin ltac:(assumption)). lia.
    + intros i Hi. rewrite rd_uint_insert.
      destruct (decide (id = i)); [lia|]. by apply Hzero.
Qed.

Lemma registry_ok_commits env s c s' :
  commits env s c s' → registry_ok s → registry_ok s'.
Proof.
  unfold registry_ok. intros Hc [Hzero Hvoted].
  destruct Hc; cbn [registered_state candidate_added_state toggled_state
    transferred_state voted_state registeredVoters hasVoted];
    try (split; assumption).
  - split.
    + rewrite rd_bool_insert. destruct (decide (v = 0)); congruence.
    + intros w Hw. rewrite rd_bool_insert. destruct (decide (v = w)); auto.
  - split; [assumption|].
    intros w. rewrite rd_bool_insert.
    destruct (decide (msg_sender env = w)) as [<-|]; auto.
Qed.

Lemma roster_ok_commits env s c s' :
  commits env s c s' → roster_ok s → roster_ok s'.
Proof.
  unfold roster_ok. intros Hc Hr.
  destruct Hc; cbn [registered_state candidate_added_state toggled_state
    transferred_state voted_state events candidateCount];
    rewrite added_ids_app, Hr; cbn [added_ids]; rewrite ?app_nil_r; try reflexivity.
  by rewrite candidate_ids_succ.
Qed.

Lemma in_range_commits env s c s' :
  commits env s c s' → in_range s → in_range s'.
Proof.
  unfold in_range. intros Hc (Hcount & Htotal & Hvotes).
  destruct Hc; cbn [registered_state candidate_added_state toggled_state
    transferred_state voted_state totalVotes voteCounts candidateCount];
    split_and!; try assumption; try lia.
  intros i. rewrite rd_uint_insert. destruct (decide (id = i)); [lia | apply Hvotes].
Qed.

Lemma in_range_deploy env : in_range (deploy env).
Proof.
  unfold in_range. rewrite deploy_eq. cbn [candidateCount totalVotes voteCounts].
  split_and!; try lia. intros i. unfold rd_uint. rewrite lookup_empty. cbn. lia.
Qed.

Lemma tally_ok_deploy env : tally_ok (deploy env).
Proof. split; [reflexivity|]. intros i _. reflexivity. Qed.

Lemma registry_ok_deploy env : registry_ok (deploy env).
Proof. split; [reflexivity|]. intros v. discriminate. Qed.

Lemma roster_ok_deploy env : roster_ok (deploy env).
Proof. reflexivity. Qed.

(** A property that is kept by every committing call holds in every
    storage a run passes through, once it holds at the start: a reverted
    call changes nothing. *)
Section Invariant.
Variable P : State → Prop.
Hypothesis P_commits : ∀ env s c s', commits env s c s' → P s → P s'.

Lemma step_invariant env c s : P s → P (step env c s).
Proof.
  intros Hs. destruct (step_cases env c s) as [->|Hc]; eauto.
Qed.

Lemma states_of_invariant tr : ∀ s, P s → Forall P (states_of tr s).
Proof.
  induction tr as [|[env c] tr IH]; intros s Hs; cbn.
  - by constructor.
  - constructor; [assumption|]. by apply IH, step_invariant.
Qed.

Lemma run_invariant tr : ∀ s, P s → P (run tr s).
Proof.
  induction tr as [|[env c] tr IH]; intros s Hs; cbn.
  - assumption.
  - by apply IH, step_invariant.
Qed.
End Invariant.

Lemma tally_ok_run env0 tr : tally_ok (run tr (deploy env0)).
Proof. apply (run_invariant tally_ok tally_ok_commits), tally_ok_deploy. Qed.

Lemma registry_ok_run env0 tr : registry_ok (run tr (deploy env0)).
Proof. apply (run_invariant registry_ok registry_ok_commits), registry_ok_deploy. Qed.

Lemma roster_ok_run env0 tr : roster_ok (run tr (deploy env0)).
Proof. apply (run_invariant roster_ok roster_ok_commits), roster_ok_deploy. Qed.

Lemma in_range_run env0 tr : in_range (run tr (deploy env0)).
Proof. apply (run_invariant in_range in_range_commits), in_range_deploy. Qed.

(** A transaction adds at most one candidate, so a run of fewer than
    [MAX_UINT] transactions keeps [candidateCount] below [MAX_UINT]. *)
Lemma candidateCount_step env c s :
  candidateCount (step env c s) ≤ candidateCount s + 1.
Proof.
  destruct (step_cases env c s) as [->|Hc]; [lia|].
  destruct Hc; cbn [registered_state candidate_added_state toggled_state
    transferred_state voted_state candidateCount]; lia.
Qed.

Lemma candidateCount_run tr :
  ∀ s, candidateCount (run tr s) ≤ candidateCount s + N.of_nat (length tr).
Proof.
  induction tr as [|[env c] tr IH]; intros s; cbn [run fold_left length fst snd].
  - lia.
  - specialize (IH (step env c s)). unfold run in IH.
    pose proof (candidateCount_step env c s). lia.
Qed.

Lemma candidateCount_short_run env0 tr :
  N.of_nat (length tr) < MAX_UINT →
  candidateCount (run tr (deploy env0)) < MAX_UINT.
Proof.
  intros Hlen. pose proof (candidateCount_run tr (deploy env0)) as H.
  change (candidateCount (deploy env0)) with 0 in H. lia.
Qed.

(** C2.  In every storage reached from deployment by any sequence of
    calls, by any senders, committed or reverted, [totalVotes] equals the
    sum of [voteCounts] over the candidates 1 .. [candidateCount]; this
    holds after the whole run and at every storage on the way. *)
Theorem totalVotes_is_sum_of_voteCounts (env0 : Env) (tr : list (Env * Call)) :
  totalVotes (run tr (deploy env0)) = sum_votes (run tr (deploy env0)) ∧
  Forall (λ s, totalVotes s = sum_votes s) (states_of tr (deploy env0)).
Proof.
  split.
  - apply tally_ok_run.
  - eapply Forall_impl.
    + apply (states_of_invariant tally_ok tally_ok_commits), tally_ok_deploy.
    + intros s Hs. apply Hs.
Qed.

(** ** The voted flag *)

Lemma states_of_head tr s : ∃ l, states_of tr s = s :: l.
Proof. destruct tr; cbn; eauto. Qed.

Lemma hasVoted_commits_mono env s c s' v :
  commits env s c s' →
  rd_bool (hasVoted s) v = true → rd_bool (hasVoted s') v = true.
Proof.
  intros Hc Hv. destruct Hc; cbn [registered_state candidate_added_state
    toggled_state transferred_state voted_state hasVoted]; try assumption.
  rewrite rd_bool_insert. by destruct (decide (msg_sender env = v)).
Qed.

Lemma hasVoted_step_mono env c s v :
  rd_bool (hasVoted s) v = true → rd_bool (hasVoted (step env c s)) v = true.
Proof.
  intros Hv. destruct (step_cases env c s) as [->|Hc]; [assumption|].
  eauto using hasVoted_commits_mono.
Qed.

Lemma hasVoted_run_mono tr s v :
  rd_bool (hasVoted s) v = true → rd_bool (hasVoted (run tr s)) v = true.
Proof.
  revert s. induction tr as [|[env c] tr IH]; intros s Hv; cbn; [assumption|].
  apply IH. by apply hasVoted_step_mono.
Qed.

Lemma run_app tr tr' s : run (tr ++ tr') s = run tr' (run tr s).
Proof. unfold run. apply fold_left_app. Qed.

Lemma hasVoted_step_cause env c s v :
  rd_bool (hasVoted s) v = false →
  rd_bool (hasVoted (step env c s)) v = true →
  ∃ id, c = CallVote id ∧ msg_sender env = v ∧
        transact (vote env id) s = (voted_state env id s, Success).
Proof.
  intros H0 H1. unfold step in H1.
  destruct (transact_cases env c s) as [[e E]|[s' [E Hc]]]; rewrite E in H1;
    cbn [fst] in H1; [congruence|].
  destruct Hc; cbn [registered_state candidate_added_state toggled_state
    transferred_state voted_state hasVoted] in H1; try congruence.
  rewrite rd_bool_insert in H1.
  destruct (decide (msg_sender env = v)); [|congruence]. eauto.
Qed.

Lemma voted_flips_cons v s s' l :
  voted_flips v (s :: s' :: l) =
    ((if negb (rd_bool (hasVoted s) v) && rd_bool (hasVoted s') v
      then 1 else 0) + voted_flips v (s' :: l))%nat.
Proof. reflexivity. Qed.

Lemma voted_flips_after_voted tr s v :
  rd_bool (hasVoted s) v = true → voted_flips v (states_of tr s) = 0%nat.
Proof.
  revert s. induction tr as [|[env c] tr IH]; intros s Hv; [reflexivity|].
  cbn [states_of fst snd].
  destruct (states_of_head tr (step env c s)) as [l Hl].
  specialize (IH (step env c s) (hasVoted_step_mono env c s v Hv)).
  rewrite Hl in *. rewrite voted_flips_cons, Hv, IH. reflexivity.
Qed.

Lemma voted_flips_le_1 tr s v : (voted_flips v (states_of tr s) ≤ 1)%nat.
Proof.
  revert s. induction tr as [|[env c] tr IH]; intros s; [cbn; lia|].
  cbn [states_of fst snd].
  destruct (states_of_head tr (step env c s)) as [l Hl].
  specialize (IH (step env c s)).
  pose proof (voted_flips_after_voted tr (step env c s) v) as Hz.
  rewrite Hl in *. rewrite voted_flips_cons.
  destruct (rd_bool (hasVoted s) v); cbn [negb andb]; [lia|].
  destruct (rd_bool (hasVoted (step env c s)) v); [|lia].
  rewrite Hz by reflexivity. lia.
Qed.

(** C8.  For every address [v]: no transaction, by any sender, turns
    [hasVoted[v]] from true to false; a transaction that turns it from
    false to true is a successful [vote] sent by [v] itself; the flag is
    false at deployment, stays true through any continuation of a run
    once it is true, and over the storages of any run from deployment it
    goes from false to true at most once. *)
Theorem hasVoted_set_at_most_once_by_own_vote (v : address) :
  (∀ env c s, rd_bool (hasVoted s) v = true →
              rd_bool (hasVoted (step env c s)) v = true) ∧
  (∀ env c s, rd_bool (hasVoted s) v = false →
              rd_bool (hasVoted (step env c s)) v = true →
              ∃ id, c = CallVote id ∧ msg_sender env = v ∧
                    transact (vote env id) s = (voted_state env id s, Success)) ∧
  (∀ env0, rd_bool (hasVoted (deploy env0)) v = false) ∧
  (∀ env0 tr tr', rd_bool (hasVoted (run tr (deploy env0))) v = true →
                  rd_bool (hasVoted (run (tr ++ tr') (deploy env0))) v = true) ∧
  (∀ env0 tr, (voted_flips v (states_of tr (deploy env0)) ≤ 1)%nat).
Proof.
  split_and!.
  - intros env c s. apply hasVoted_step_mono.
  - intros env c s. apply hasVoted_step_cause.
  - reflexivity.
  - intros env0 tr tr' Hv. rewrite run_app. by apply hasVoted_run_mono.
  - intros env0 tr. apply voted_flips_le_1.
Qed.

Lemma hasVoted_set_at_most_once_by_own_vote_witness :
  msg_sender (mkEnv voterA 20) = voterA ∧
  transact (vote (mkEnv voterA 20) 2) ballot_open
  = (voted_state (mkEnv voterA 20) 2 ballot_open, Success).
Proof.
  destruct (hasVoted_set_at_most_once_by_own_vote voterA) as (_ & Hcause & _).
  destruct (Hcause (mkEnv voterA 20) (CallVote 2) ballot_open)
    as (id & Hid & Hsender & Hrun).
  - vm_compute. reflexivity.
  - vm_compute. reflexivity.
  - injection Hid as <-. split; [exact Hsender | exact Hrun].
Defined.

(** ** Toggling *)

Lemma transact_toggleVoting env s :
  msg_sender env = admin s →
  transact (toggleVoting env) s = (toggled_state env s, Success).
Proof.
  intros Ha. unfold transact. rewrite toggleVoting_eq, Ha, N.eqb_refl.
  reflexivity.
Qed.

(** C7.  Two consecutive [toggleVoting] calls by the admin both succeed;
    each flips [votingActive], so the second restores the value the flag
    had before the first, and apart from the two [VotingStatusChanged]
    events in the log the storage is as before.  In particular the admin
    can always turn an inactive election active again. *)
Theorem toggleVoting_twice_restores_flag (s : State) (env1 env2 : Env) :
  msg_sender env1 = admin s →
  msg_sender env2 = admin s →
  let s1 := toggled_state env1 s in
  let s2 := toggled_state env2 s1 in
  transact (toggleVoting env1) s = (s1, Success) ∧
  transact (toggleVoting env2) s1 = (s2, Success) ∧
  votingActive s1 = negb (votingActive s) ∧
  votingActive s2 = negb (votingActive s1) ∧
  votingActive s2 = votingActive s ∧
  (votingActive s = false → votingActive s1 = true) ∧
  s2 = mkState (admin s) (registeredVoters s) (hasVoted s) (voteCounts s)
         (candidates s) (candidateCount s) (totalVotes s) (votingActive s)
         (events s ++ [VotingStatusChanged (negb (votingActive s)) (block_timestamp env1);
                       VotingStatusChanged (votingActive s) (block_timestamp env2)]).
Proof.
  intros H1 H2 s1 s2. split_and!.
  - by apply transact_toggleVoting.
  - by apply transact_toggleVoting.
  - reflexivity.
  - reflexivity.
  - cbn. apply negb_involutive.
  - intros H. cbn. by rewrite H.
  - unfold s2, s1, toggled_state. cbn [admin registeredVoters hasVoted voteCounts
      candidates candidateCount totalVotes votingActive events].
    rewrite negb_involutive, <- app_assoc. reflexivity.
Qed.

Lemma toggleVoting_twice_restores_flag_witness :
  votingActive (toggled_state (mkEnv authority0 31)
                  (toggled_state (mkEnv authority0 30) ballot_open))
  = votingActive ballot_open.
Proof.
  apply (toggleVoting_twice_restores_flag ballot_open
           (mkEnv authority0 30) (mkEnv authority0 31));
    vm_compute; reflexivity.
Defined.

(** ** Registration *)

Lemma transact_registerVoter env v s :
  msg_sender env = admin s →
  transact (registerVoter env v) s =
    if rd_bool (registeredVoters s) v then (s, Reverted DuplicateRegistration)
    else if v =? 0 then (s, Reverted InvalidVoterAddress)
    else (registered_state env v s, Success).
Proof.
  intros Ha. unfold transact. rewrite registerVoter_eq, Ha, N.eqb_refl.
  cbn [negb]. repeat split_guard.
Qed.

(** C5.  In every storage reached from deployment, [registerVoter(v)]
    sent by the admin fails with "Invalid voter address" when [v] is the
    zero address and with "Voter is already registered" when [v] is
    registered, leaving the storage as it was; otherwise it commits
    [registered_state], in which [v] is registered and has not voted and
    one [VoterRegistered] event is appended.  A second [registerVoter(v)]
    by the admin then fails with "Voter is already registered" and leaves
    the storage exactly as the first call left it. *)
Theorem registerVoter_checks_and_rejects_duplicates
    (env0 : Env) (tr : list (Env * Call)) (env env' : Env) (v : address) :
  let s := run tr (deploy env0) in
  let s' := registered_state env v s in
  msg_sender env = admin s →
  msg_sender env' = admin s →
  (v = 0 → transact (registerVoter env v) s = (s, Reverted InvalidVoterAddress)) ∧
  (rd_bool (registeredVoters s) v = true →
     transact (registerVoter env v) s = (s, Reverted DuplicateRegistration)) ∧
  (v ≠ 0 → rd_bool (registeredVoters s) v = false →
     transact (registerVoter env v) s = (s', Success) ∧
     rd_bool (registeredVoters s') v = true ∧
     rd_bool (hasVoted s') v = false ∧
     events s' = events s ++ [VoterRegistered v (block_timestamp env)] ∧
     transact (registerVoter env' v) s' = (s', Reverted DuplicateRegistration)).
Proof.
  intros s s' Ha Ha'.
  assert (Hreg : registry_ok s) by apply registry_ok_run.
  destruct Hreg as [Hzero Hvoted].
  assert (Hnew : rd_bool (registeredVoters s') v = true).
  { unfold s', registered_state. simpl_storage. rewrite rd_bool_insert.
    by rewrite decide_True. }
  split_and!.
  - intros ->. rewrite transact_registerVoter, Hzero by assumption. reflexivity.
  - intros Hr. rewrite transact_registerVoter, Hr by assumption. reflexivity.
  - intros Hv Hr. rewrite transact_registerVoter, Hr by assumption.
    apply N.eqb_neq in Hv. rewrite Hv. split_and!.
    + reflexivity.
    + assumption.
    + change (hasVoted s') with (hasVoted s).
      destruct (rd_bool (hasVoted s) v) eqn:E; [|reflexivity].
      apply Hvoted in E. congruence.
    + reflexivity.
    + rewrite transact_registerVoter, Hnew by assumption. reflexivity.
Qed.

Lemma registerVoter_checks_and_rejects_duplicates_witness :
  transact (registerVoter (mkEnv authority0 41) 2003)
           (registered_state (mkEnv authority0 40) 2003 ballot_open)
  = (registered_state (mkEnv authority0 40) 2003 ballot_open,
     Reverted DuplicateRegistration).
Proof.
  apply (registerVoter_checks_and_rejects_duplicates (mkEnv authority0 10)
           ballot_setup (mkEnv authority0 40) (mkEnv authority0 41) 2003);
    first [reflexivity | unfold voterA; lia].
Defined.

(** ** Candidates *)

Lemma transact_addCandidate env name s :
  msg_sender env = admin s →
  transact (addCandidate env name) s =
    if negb (0 <? N.of_nat (String.length name)) then (s, Reverted EmptyName)
    else if negb (N.of_nat (String.length name) <=? 64) then (s, Reverted NameTooLong)
    else if negb (candidateCount s <? MAX_UINT)
         then (s, Reverted (Panic ARITHMETIC_OVERFLOW))
    else (candidate_added_state env name s, Success).
Proof.
  intros Ha. unfold transact. rewrite addCandidate_eq, Ha, N.eqb_refl.
  cbn [negb]. repeat split_guard.
Qed.

Lemma transact_addCandidate_ok env name s :
  msg_sender env = admin s →
  (1 ≤ String.length name ≤ 64)%nat →
  candidateCount s < MAX_UINT →
  transact (addCandidate env name) s = (candidate_added_state env name s, Success).
Proof.
  intros Ha Hn Hc. rewrite transact_addCandidate by assumption.
  replace (0 <? N.of_nat (String.length name)) with true
    by (symmetry; apply N.ltb_lt; lia).
  replace (N.of_nat (String.length name) <=? 64) with true
    by (symmetry; apply N.leb_le; lia).
  replace (candidateCount s <? MAX_UINT) with true
    by (symmetry; by apply N.ltb_lt).
  reflexivity.
Qed.

(** C4, as the specification words it, is refuted by a name made of one
    space: its trimmed length is 0, yet [addCandidate] sent by the admin
    right after deployment commits it as candidate 1 instead of failing
    with "Candidate name cannot be empty". *)
Lemma addCandidate_accepts_blank_name :
  let s := deploy (mkEnv authority0 10) in
  let env := mkEnv authority0 13 in
  spec_trimmed_length " " = 0%nat ∧
  msg_sender env = admin s ∧
  transact (addCandidate env " ") s = (candidate_added_state env " " s, Success) ∧
  rd_string (candidates (candidate_added_state env " " s)) 1 = " " ∧
  transact (addCandidate env " ") s ≠ (s, Reverted EmptyName).
Proof.
  vm_compute. split_and!; try reflexivity. discriminate.
Qed.

(** C4, amended.  In every storage reached from deployment,
    [addCandidate(name)] sent by the admin fails with "Candidate name
    cannot be empty" when the byte length of [name] is 0 and with
    "Candidate name too long" when it exceeds 64, leaving the storage as
    it was; no trimming takes place.  Otherwise, with [candidateCount]
    below [MAX_UINT], it commits [candidate_added_state]: the new id is
    [candidateCount + 1], the name is stored under it, its vote count
    reads 0, [candidateCount] is one higher and one [CandidateAdded]
    event with the new id is appended.  The ids of the [CandidateAdded]
    events in the log are 1, 2, ..., [candidateCount] in this order. *)
Theorem addCandidate_checks_length_and_assigns_next_id
    (env0 : Env) (tr : list (Env * Call)) (env : Env) (name : string) :
  let s := run tr (deploy env0) in
  let s' := candidate_added_state env name s in
  let id := candidateCount s + 1 in
  msg_sender env = admin s →
  (String.length name = 0%nat →
     transact (addCandidate env name) s = (s, Reverted EmptyName)) ∧
  ((64 < String.length name)%nat →
     transact (addCandidate env name) s = (s, Reverted NameTooLong)) ∧
  ((1 ≤ String.length name ≤ 64)%nat → candidateCount s < MAX_UINT →
     transact (addCandidate env name) s = (s', Success) ∧
     candidateCount s' = id ∧
     rd_string (candidates s') id = name ∧
     rd_uint (voteCounts s') id = 0 ∧
     events s' = events s ++ [CandidateAdded id name (block_timestamp env)] ∧
     added_ids (events s') = added_ids (events s) ++ [id]) ∧
  added_ids (events s) = candidate_ids (candidateCount s).
Proof.
  intros s s' id Ha.
  assert (Htally : tally_ok s) by apply tally_ok_run.
  assert (Hroster : roster_ok s) by apply roster_ok_run.
  split_and!.
  - intros H0. rewrite transact_addCandidate, H0 by assumption. reflexivity.
  - intros H64. rewrite transact_addCandidate by assumption.
    replace (0 <? N.of_nat (String.length name)) with true
      by (symmetry; apply N.ltb_lt; lia).
    replace (N.of_nat (String.length name) <=? 64) with false
      by (symmetry; apply N.leb_gt; lia).
    reflexivity.
  - intros Hn Hc. split_and!.
    + by apply transact_addCandidate_ok.
    + reflexivity.
    + unfold s', candidate_added_state. simpl_storage.
      rewrite rd_string_insert. by rewrite decide_True.
    + change (voteCounts s') with (voteCounts s). apply Htally. unfold id. lia.
    + reflexivity.
    + unfold s', candidate_added_state. simpl_storage.
      rewrite added_ids_app. reflexivity.
  - apply Hroster.
Qed.

Lemma addCandidate_checks_length_and_assigns_next_id_witness :
  transact (addCandidate (mkEnv authority0 40) "Carol") ballot_open
  = (candidate_added_state (mkEnv authority0 40) "Carol" ballot_open, Success) ∧
  candidateCount (candidate_added_state (mkEnv authority0 40) "Carol" ballot_open) = 3.
Proof.
  assert (H := addCandidate_checks_length_and_assigns_next_id
                 (mkEnv authority0 10) ballot_setup (mkEnv authority0 40) "Carol").
  cbv zeta in H. destruct H as (_ & _ & H & _); [reflexivity|].
  destruct H as (H1 & H2 & _); [vm_compute; lia | reflexivity |].
  split; [exact H1 | exact H2].
Defined.

(** ** Handing over the admin role *)

Lemma transact_transferAdmin env a s :
  msg_sender env = admin s →
  transact (transferAdmin env a) s =
    if a =? 0 then (s, Reverted InvalidAdminAddress)
    else if a =? admin s then (s, Reverted SameAuthority)
    else (transferred_state env a s, Success).
Proof.
  intros Ha. unfold transact. rewrite transferAdmin_eq, Ha, N.eqb_refl.
  cbn [negb]. repeat split_guard.
Qed.

Lemma admin_only_call_denied env c s :
  admin_only c = true →
  msg_sender env ≠ admin s →
  transact (dispatch env c) s = (s, Reverted AccessDenied).
Proof.
  intros Hg Hne. apply N.eqb_neq in Hne.
  destruct c; try discriminate; cbn [dispatch]; unfold transact.
  - by rewrite registerVoter_eq, Hne.
  - by rewrite addCandidate_eq, Hne.
  - by rewrite toggleVoting_eq, Hne.
  - by rewrite transferAdmin_eq, Hne.
Qed.

Lemma admin_only_call_passes env c s :
  admin_only c = true →
  msg_sender env = admin s →
  transact (dispatch env c) s ≠ (s, Reverted AccessDenied).
Proof.
  intros Hg Ha.
  destruct c; try discriminate; cbn [dispatch].
  - rewrite transact_registerVoter by assumption. repeat split_guard; discriminate.
  - rewrite transact_addCandidate by assumption. repeat split_guard; discriminate.
  - rewrite transact_toggleVoting by assumption. discriminate.
  - rewrite transact_transferAdmin by assumption. repeat split_guard; discriminate.
Qed.

(** C6.  [transferAdmin(newAdmin)] sent by the admin fails with "Invalid
    admin address" when [newAdmin] is the zero address and with "New
    admin cannot be the same as current admin" when it is the admin,
    leaving the storage as it was; otherwise it commits
    [transferred_state], whose admin is [newAdmin] and whose log has one
    more [AdminChanged] event.  From then on every [onlyAdmin] function
    called by the old admin fails with "Only admin can perform this
    action" and changes nothing, while called by [newAdmin] none of them
    fails that way: [toggleVoting] succeeds, [addCandidate] succeeds for
    a name of 1 to 64 bytes (with [candidateCount] below [MAX_UINT]) and
    [registerVoter] succeeds for an unregistered non-zero address. *)
Theorem transferAdmin_checks_and_hands_over
    (s : State) (env : Env) (newAdmin : address) :
  let s' := transferred_state env newAdmin s in
  msg_sender env = admin s →
  (newAdmin = 0 →
     transact (transferAdmin env newAdmin) s = (s, Reverted InvalidAdminAddress)) ∧
  (newAdmin ≠ 0 → newAdmin = admin s →
     transact (transferAdmin env newAdmin) s = (s, Reverted SameAuthority)) ∧
  (newAdmin ≠ 0 → newAdmin ≠ admin s →
     transact (transferAdmin env newAdmin) s = (s', Success) ∧
     admin s' = newAdmin ∧
     events s' = events s ++ [AdminChanged (admin s) newAdmin (block_timestamp env)] ∧
     (∀ env1 c, admin_only c = true → msg_sender env1 = admin s →
        transact (dispatch env1 c) s' = (s', Reverted AccessDenied)) ∧
     (∀ env1 c, admin_only c = true → msg_sender env1 = newAdmin →
        transact (dispatch env1 c) s' ≠ (s', Reverted AccessDenied)) ∧
     (∀ env1 name, msg_sender env1 = newAdmin →
        (1 ≤ String.length name ≤ 64)%nat → candidateCount s < MAX_UINT →
        transact (addCandidate env1 name) s'
        = (candidate_added_state env1 name s', Success)) ∧
     (∀ env1, msg_sender env1 = newAdmin →
        transact (toggleVoting env1) s' = (toggled_state env1 s', Success)) ∧
     (∀ env1 v, msg_sender env1 = newAdmin →
        v ≠ 0 → rd_bool (registeredVoters s) v = false →
        transact (registerVoter env1 v) s' = (registered_state env1 v s', Success))).
Proof.
  intros s' Ha. split_and!.
  - intros ->. by rewrite transact_transferAdmin.
  - intros Hz Hs. rewrite transact_transferAdmin by assumption.
    apply N.eqb_neq in Hz. apply N.eqb_eq in Hs. by rewrite Hz, Hs.
  - intros Hz Hs. split_and!.
    + rewrite transact_transferAdmin by assumption.
      apply N.eqb_neq in Hz, Hs. by rewrite Hz, Hs.
    + reflexivity.
    + reflexivity.
    + intros env1 c Hg H1. apply admin_only_call_denied; [assumption|].
      change (admin s') with newAdmin. congruence.
    + intros env1 c Hg H1. by apply admin_only_call_passes.
    + intros env1 name H1 Hn Hc. by apply transact_addCandidate_ok.
    + intros env1 H1. by apply transact_toggleVoting.
    + intros env1 v H1 Hv Hr. rewrite transact_registerVoter by assumption.
      change (registeredVoters s') with (registeredVoters s). rewrite Hr.
      apply N.eqb_neq in Hv. by rewrite Hv.
Qed.

Lemma transferAdmin_checks_and_hands_over_witness :
  transact (addCandidate (mkEnv authority0 51) "Carol")
    (transferred_state (mkEnv authority0 50) voterB ballot_open)
  = (transferred_state (mkEnv authority0 50) voterB ballot_open,
     Reverted AccessDenied) ∧
  transact (addCandidate (mkEnv voterB 52) "Carol")
    (transferred_state (mkEnv authority0 50) voterB ballot_open)
  = (candidate_added_state (mkEnv voterB 52) "Carol"
       (transferred_state (mkEnv authority0 50) voterB ballot_open), Success).
Proof.
  assert (H := transferAdmin_checks_and_hands_over ballot_open
                 (mkEnv authority0 50) voterB).
  cbv zeta in H. destruct H as (_ & _ & H); [reflexivity|].
  destruct H as (_ & _ & _ & Hold & _ & Hnew & _);
    [unfold voterB; lia | vm_compute; discriminate |].
  split.
  - apply (Hold (mkEnv authority0 51) (CallAddCandidate "Carol")); reflexivity.
  - apply (Hnew (mkEnv voterB 52) "Carol");
      [reflexivity | vm_compute; lia | reflexivity].
Defined.

(** ** Loops *)

Lemma checked_inc_ok (i : uint) : i < MAX_UINT → checked_inc i = Ok (i + 1).
Proof. intros H. unfold checked_inc. apply N.ltb_lt in H. by rewrite H. Qed.

Lemma checked_sub_ok (i j : uint) : j ≤ i → checked_sub i j = Ok (i - j).
Proof. intros H. unfold checked_sub. apply N.leb_le in H. by rewrite H. Qed.

(** The loop rule: if the body keeps [P] from one counter value to the
    next without reverting, a loop entered at [i] with [P i a] and fuel
    for the remaining rounds ends normally with [P (hi + 1)]. *)
Section LoopRule.
Context {A : Type}.
Variable P : uint → A → Prop.
Variable body : uint → A → Result A.
Variable hi : uint.
Hypothesis hi_below_max : hi < MAX_UINT.
Hypothesis body_keeps :
  ∀ i a, i ≤ hi → P i a → ∃ a', body i a = Ok a' ∧ P (i + 1) a'.

Lemma for_le_exit fuel a : for_le (S fuel) (hi + 1) hi body a = Some (Ok a).
Proof.
  cbn [for_le].
  replace (hi + 1 <=? hi) with false by (symmetry; apply N.leb_gt; lia).
  reflexivity.
Qed.

Lemma for_le_round fuel i a a' :
  i ≤ hi → body i a = Ok a' →
  for_le (S fuel) i hi body a = for_le fuel (i + 1) hi body a'.
Proof.
  intros Hi Hb. cbn [for_le].
  replace (i <=? hi) with true by (symmetry; by apply N.leb_le).
  rewrite Hb, checked_inc_ok by lia. reflexivity.
Qed.

Lemma for_le_invariant (k : nat) :
  ∀ (i : uint) (a : A),
    i ≤ hi + 1 → N.to_nat (hi + 1 - i) = k → P i a →
    ∃ a', for_le (S k) i hi body a = Some (Ok a') ∧ P (hi + 1) a'.
Proof.
  induction k as [|k IH]; intros i a Hi Hk HP.
  - assert (i = hi + 1) as -> by lia.
    exists a. split; [apply for_le_exit | assumption].
  - assert (Hle : i ≤ hi) by lia.
    destruct (body_keeps i a Hle HP) as (a1 & Hb & HP1).
    destruct (IH (i + 1) a1) as (a' & Hrun & HP'); [lia | lia | assumption |].
    exists a'. split; [|assumption].
    by rewrite (for_le_round (S k) i a a1).
Qed.
End LoopRule.

Lemma array_store_next {A} (pre : list A) (zero x : A) (m : nat) (j : uint) :
  N.to_nat j = length pre →
  array_store (pre ++ replicate (S m) zero) j x
  = Ok ((pre ++ [x]) ++ replicate m zero).
Proof.
  intros Hj. unfold array_store.
  replace (j <? N.of_nat (length (pre ++ replicate (S m) zero))) with true.
  - rewrite Hj. f_equal.
    rewrite insert_app_r_alt by lia. rewrite Nat.sub_diag.
    rewrite <- app_assoc. reflexivity.
  - symmetry. apply N.ltb_lt. rewrite length_app, length_replicate. lia.
Qed.

(** ** The winner scan *)

Lemma spec_linear_scan_snoc count ids i :
  spec_linear_scan count (ids ++ [i])
  = spec_scan_step count (spec_linear_scan count ids) i.
Proof. unfold spec_linear_scan. by rewrite fold_left_app. Qed.

Lemma scanned_start count : scanned count 0 (0, 1).
Proof. unfold scanned. cbn. split_and!; try lia. by right. Qed.

Lemma scanned_step count k hw :
  scanned count k hw → scanned count (k + 1) (spec_scan_step count hw (k + 1)).
Proof.
  destruct hw as [h w]. unfold scanned, spec_scan_step. cbn [fst snd].
  intros (Hw & Hin & Hmax & Hfirst & Hval).
  destruct (h <? count (k + 1)) eqn:E; cbn [fst snd].
  - apply N.ltb_lt in E. split_and!; try lia.
    + intros j Hj. destruct (decide (j = k + 1)) as [->|]; [lia|].
      specialize (Hmax j). lia.
    + intros j Hj _. specialize (Hmax j). lia.
  - apply N.ltb_ge in E.
    destruct Hin as [Hin|[= -> ->]].
    + split_and!; try lia.
      * intros j Hj. destruct (decide (j = k + 1)) as [->|]; [lia|].
        apply Hmax. lia.
      * intros j Hj Hk. apply Hfirst; lia.
    + assert (k = 0 ∨ 1 ≤ k) as [->|Hk] by lia.
      * change (0 + 1) with 1 in *. split_and!; try lia.
        intros j Hj. assert (j = 1) as -> by lia. lia.
      * split_and!; try lia.
        intros j Hj. destruct (decide (j = k + 1)) as [->|]; [lia|].
        apply Hmax. lia.
Qed.

Lemma scanned_candidate_ids count (n : uint) :
  scanned count n (spec_linear_scan count (candidate_ids n)).
Proof.
  induction n as [|n IH] using N.peano_ind.
  - apply scanned_start.
  - rewrite <- N.add_1_r, candidate_ids_succ, spec_linear_scan_snoc.
    by apply scanned_step.
Qed.

(** Among the candidates with the highest count the scan returns the one
    with the lowest id, and the highest count with it. *)
Lemma spec_linear_scan_lowest_max count (n : uint) :
  1 ≤ n →
  let hw := spec_linear_scan count (candidate_ids n) in
  1 ≤ snd hw ≤ n ∧
  fst hw = count (snd hw) ∧
  (∀ j, 1 ≤ j ≤ n → count j ≤ count (snd hw)) ∧
  (∀ j, 1 ≤ j < snd hw → count j < count (snd hw)).
Proof.
  intros Hn hw. destruct (scanned_candidate_ids count n) as
    (Hw & Hin & Hmax & Hfirst & Hval). fold hw in Hw, Hin, Hmax, Hfirst, Hval.
  assert (Hle : snd hw ≤ n).
  { destruct Hin as [?|E]; [assumption|]. rewrite E. cbn. lia. }
  specialize (Hval Hle). rewrite <- Hval. split_and!; try done.
  intros j Hj. apply Hfirst; lia.
Qed.

(** ** Running the two result functions *)

Lemma showResults_body_keeps s i l :
  i ≤ candidateCount s →
  results_so_far s i l →
  ∃ l', showResults_body s i l = Ok l' ∧ results_so_far s (i + 1) l'.
Proof.
  intros Hi (Hrange & Hvotes & Hnames & Hscan).
  assert (Hids : candidate_ids (i + 1 - 1) = candidate_ids (i - 1) ++ [i]).
  { replace (i + 1 - 1) with (i - 1 + 1) by lia. rewrite candidate_ids_succ.
    do 2 f_equal. lia. }
  assert (Hrest : N.to_nat (candidateCount s + 1 - i)
                  = S (N.to_nat (candidateCount s + 1 - (i + 1)))) by lia.
  unfold showResults_body. rewrite checked_sub_ok by lia.
  cbn [mbind Result_bind]. rewrite Hvotes, Hrest, array_store_next
    by (rewrite length_fmap, length_candidate_ids; reflexivity).
  rewrite Hnames, Hrest, array_store_next
    by (rewrite length_fmap, length_candidate_ids; reflexivity).
  assert (Hstep : (if highestVoteCount l <? rd_uint (voteCounts s) i
                   then (rd_uint (voteCounts s) i, i)
                   else (highestVoteCount l, winningCandidateId l))
                  = spec_linear_scan (rd_uint (voteCounts s)) (candidate_ids (i + 1 - 1))).
  { rewrite Hids, spec_linear_scan_snoc, <- Hscan. reflexivity. }
  destruct (highestVoteCount l <? rd_uint (voteCounts s) i);
    (eexists; split; [reflexivity|]);
    (split_and!; [lia | lia | | | exact Hstep]);
    cbn [votes names]; rewrite Hids, fmap_app; reflexivity.
Qed.

Lemma getWinner_body_keeps s i (l : uint * uint) :
  i ≤ candidateCount s →
  1 ≤ i ∧ l = spec_linear_scan (rd_uint (voteCounts s)) (candidate_ids (i - 1)) →
  ∃ l', getWinner_body s i l = Ok l' ∧
        1 ≤ i + 1 ∧
        l' = spec_linear_scan (rd_uint (voteCounts s)) (candidate_ids (i + 1 - 1)).
Proof.
  intros Hi [H1 ->].
  exists (spec_scan_step (rd_uint (voteCounts s))
            (spec_linear_scan (rd_uint (voteCounts s)) (candidate_ids (i - 1))) i).
  split_and!.
  - unfold getWinner_body, spec_scan_step. by destruct (_ <? _).
  - lia.
  - replace (i + 1 - 1) with (i - 1 + 1) by lia.
    rewrite candidate_ids_succ, spec_linear_scan_snoc. do 2 f_equal. lia.
Qed.

Lemma MAX_ARRAY_LENGTH_below_MAX_UINT : MAX_ARRAY_LENGTH < MAX_UINT.
Proof. reflexivity. Qed.

Lemma new_array_ok {A} (zero : A) (n : uint) :
  n ≤ MAX_ARRAY_LENGTH → new_array zero n = Ok (replicate (N.to_nat n) zero).
Proof. intros H. unfold new_array. apply N.leb_le in H. by rewrite H. Qed.



Lemma showResults_eq s :
  candidateCount s ≤ MAX_ARRAY_LENGTH →
  showResults s =
    Some (Ok (rd_uint (voteCounts s) <$> candidate_ids (candidateCount s),
              rd_string (candidates s) <$> candidate_ids (candidateCount s),
              if candidateCount s =? 0 then 0
              else snd (spec_linear_scan (rd_uint (voteCounts s))
                          (candidate_ids (candidateCount s))))).
Proof.
  intros Hlen.
  assert (Hmax : candidateCount s < MAX_UINT).
  { pose proof MAX_ARRAY_LENGTH_below_MAX_UINT. lia. }
  unfold showResults. rewrite !new_array_ok by assumption.
  destruct (candidateCount s =? 0) eqn:E.
  - apply N.eqb_eq in E. rewrite E. reflexivity.
  - apply N.eqb_neq in E.
    destruct (for_le_invariant (results_so_far s) (showResults_body s)
                (candidateCount s) Hmax (showResults_body_keeps s)
                (N.to_nat (candidateCount s)) 1
                (mkResultsLocals (replicate (N.to_nat (candidateCount s)) 0)
                   (replicate (N.to_nat (candidateCount s)) EmptyString) 0 1))
      as (l & Hrun & _ & Hvotes & Hnames & Hscan).
    + lia.
    + lia.
    + unfold results_so_far. cbn [votes names highestVoteCount
        winningCandidateId].
      replace (candidateCount s + 1 - 1) with (candidateCount s) by lia.
      split_and!; try reflexivity; lia.
    + rewrite Hrun. cbn [fmap option_fmap option_map mbind Result_bind].
      replace (candidateCount s + 1 - (candidateCount s + 1)) with 0 in * by lia.
      replace (candidateCount s + 1 - 1) with (candidateCount s) in * by lia.
      cbn [N.to_nat replicate] in *. rewrite app_nil_r in *.
      rewrite Hvotes, Hnames, <- Hscan. reflexivity.
Qed.

Lemma getWinner_eq s :
  candidateCount s < MAX_UINT →
  getWinner s =
    Some (Ok (if candidateCount s =? 0 then (EmptyString, 0, false)
              else
                let hw := spec_linear_scan (rd_uint (voteCounts s))
                            (candidate_ids (candidateCount s)) in
                (rd_string (candidates s) (snd hw), fst hw, true))).
Proof.
  intros Hmax. unfold getWinner.
  destruct (candidateCount s =? 0) eqn:E; [reflexivity|].
  apply N.eqb_neq in E.
  destruct (for_le_invariant
              (λ i l, 1 ≤ i ∧ l = spec_linear_scan (rd_uint (voteCounts s))
                                    (candidate_ids (i - 1)))
              (getWinner_body s) (candidateCount s) Hmax
              (getWinner_body_keeps s) (N.to_nat (candidateCount s)) 1 (0, 1))
    as (l & Hrun & _ & ->).
  - lia.
  - lia.
  - split; [lia | reflexivity].
  - rewrite Hrun. cbn [fmap option_fmap option_map mbind Result_bind].
    replace (candidateCount s + 1 - 1) with (candidateCount s) by lia.
    reflexivity.
Qed.

Lemma spec_linear_scan_all_zero count ids :
  (∀ j, j ∈ ids → count j = 0) → spec_linear_scan count ids = (0, 1).
Proof.
  unfold spec_linear_scan. induction ids as [|i ids IH]; intros H; [reflexivity|].
  cbn [fold_left]. unfold spec_scan_step at 2. cbn [fst].
  rewrite (H i) by (apply elem_of_cons; by left). cbn [N.ltb N.compare].
  apply IH. intros j Hj. apply H. apply elem_of_cons. by right.
Qed.




(** C9.  With at least one candidate ([candidateCount] below [MAX_UINT])
    and every candidate's count at 0, [getWinner] returns the name of
    candidate 1, 0 votes and exists = true. *)
Theorem getWinner_names_first_candidate_before_any_vote (s : State) :
  1 ≤ candidateCount s →
  candidateCount s < MAX_UINT →
  (∀ i, 1 ≤ i ≤ candidateCount s → rd_uint (voteCounts s) i = 0) →
  getWinner s = Some (Ok (rd_string (candidates s) 1, 0, true)).
Proof.
  intros Hn Hmax Hzero. rewrite getWinner_eq by assumption.
  replace (candidateCount s =? 0) with false by (symmetry; apply N.eqb_neq; lia).
  rewrite spec_linear_scan_all_zero; [reflexivity|].
  intros j Hj. apply Hzero. by apply elem_of_candidate_ids.
Qed.

Lemma getWinner_names_first_candidate_before_any_vote_witness :
  getWinner ballot_open = Some (Ok ("Alice", 0, true)).
Proof.
  apply (getWinner_names_first_candidate_before_any_vote ballot_open).
  - vm_compute. discriminate.
  - reflexivity.
  - intros i Hi. change (candidateCount ballot_open) with 2 in Hi.
    assert (i = 1 ∨ i = 2) as [-> | ->] by lia; reflexivity.
Defined.

(** ** The scenarios of the specification, evaluated *)

(** Scenario A: two voters, two candidates, one vote each. *)
Example scenario_A :
  showResults ballot_tied = Some (Ok ([1; 1], ["Alice"; "Bob"], 1)) ∧
  getElectionStats ballot_tied = (2, 2, true, authority0).
Proof. split; reflexivity. Qed.

(** Scenario B: an unregistered sender cannot vote, and [totalVotes]
    stays as it was. *)
Example scenario_B :
  transact (vote (mkEnv 3000 20) 1) ballot_open
  = (ballot_open, Reverted NotRegistered).
Proof. reflexivity. Qed.

(** Scenario C: after the hand-over the old admin is refused and the new
    admin is served. *)
Example scenario_C :
  let s := step (mkEnv authority0 50) (CallTransferAdmin voterB) ballot_open in
  admin s = voterB ∧
  snd (transact (addCandidate (mkEnv authority0 51) "Carol") s)
  = Reverted AccessDenied ∧
  snd (transact (addCandidate (mkEnv voterB 52) "Carol") s) = Success.
Proof. split_and!; reflexivity. Qed.

(** Scenario D: no candidates. *)
Example scenario_D :
  showResults (deploy (mkEnv authority0 10)) = Some (Ok ([], [], 0)) ∧
  getWinner (deploy (mkEnv authority0 10)) = Some (Ok (EmptyString, 0, false)).
Proof. split; reflexivity. Qed.

(** A second vote by the same sender, a vote for candidate 0 and a vote
    for a candidate beyond [candidateCount] are refused. *)
Example refused_votes :
  transact (vote (mkEnv voterA 22) 2) ballot_tied
  = (ballot_tied, Reverted AlreadyVoted) ∧
  transact (vote (mkEnv voterA 20) 0) ballot_open
  = (ballot_open, Reverted InvalidCandidate) ∧
  transact (vote (mkEnv voterA 20) 3) ballot_open
  = (ballot_open, Reverted InvalidCandidate).
Proof. split_and!; reflexivity. Qed.

(** * Further properties of the contract *)

(** ** Flag mappings and event counts *)

Lemma elem_of_flagged (m : gmap address bool) (a : address) :
  a ∈ flagged m ↔ rd_bool m a = true.
Proof.
  unfold flagged, rd_bool. rewrite elem_of_dom. split.
  - intros [b Hb]. apply map_lookup_filter_Some in Hb as [Hm Hb].
    cbn in Hb. by rewrite Hm, Hb.
  - destruct (m !! a) as [b|] eqn:E; cbn; [|discriminate].
    intros ->. exists true. apply map_lookup_filter_Some. by split.
Qed.

Lemma flagged_insert_true (m : gmap address bool) (a : address) :
  flagged (<[a := true]> m) = {[a]} ∪ flagged m.
Proof.
  apply set_eq. intros b.
  rewrite elem_of_union, elem_of_singleton, !elem_of_flagged, rd_bool_insert.
  destruct (decide (a = b)) as [->|Hne]; [tauto|].
  split; [tauto | intros [?|?]; congruence].
Qed.

Lemma size_flagged_insert_true (m : gmap address bool) (a : address) :
  rd_bool m a = false →
  size (flagged (<[a := true]> m)) = S (size (flagged m)).
Proof.
  intros Ha. rewrite flagged_insert_true, size_union, size_singleton; [lia|].
  apply disjoint_singleton_l. rewrite elem_of_flagged. congruence.
Qed.

Lemma count_events_app kind (l1 l2 : list Event) :
  count_events kind (l1 ++ l2) = count_events kind l1 + count_events kind l2.
Proof. induction l1 as [|e l1 IH]; cbn; [reflexivity|]. rewrite IH. lia. Qed.

Lemma last_AdminChanged_app a (l1 l2 : list Event) :
  last_AdminChanged a (l1 ++ l2) = last_AdminChanged (last_AdminChanged a l1) l2.
Proof. revert a. induction l1 as [|[] l1 IH]; intros a; cbn; auto. Qed.

Lemma last_VotingStatusChanged_app b (l1 l2 : list Event) :
  last_VotingStatusChanged b (l1 ++ l2)
  = last_VotingStatusChanged (last_VotingStatusChanged b l1) l2.
Proof. revert b. induction l1 as [|[] l1 IH]; intros b; cbn; auto. Qed.

(** ** The further invariants are kept *)

Lemma ballots_ok_commits env s c s' :
  commits env s c s' → ballots_ok s → ballots_ok s'.
Proof.
  unfold ballots_ok. intros Hc Hb.
  destruct Hc; cbn [registered_state candidate_added_state toggled_state
    transferred_state voted_state totalVotes hasVoted]; try assumption.
  rewrite size_flagged_insert_true by assumption. lia.
Qed.

Lemma ballots_ok_deploy env : ballots_ok (deploy env).
Proof. reflexivity. Qed.

Lemma ballots_ok_run env0 tr : ballots_ok (run tr (deploy env0)).
Proof. apply (run_invariant ballots_ok ballots_ok_commits), ballots_ok_deploy. Qed.

Lemma audit_ok_commits env s c s' :
  commits env s c s' → audit_ok s → audit_ok s'.
Proof.
  unfold audit_ok. intros Hc (Hv & Hc' & Hr & Ha & Hs).
  destruct Hc; cbn [registered_state candidate_added_state toggled_state
    transferred_state voted_state totalVotes candidateCount registeredVoters
    admin votingActive events];
    rewrite !count_events_app, last_AdminChanged_app,
      last_VotingStatusChanged_app, Hv, Hc', Hr, Ha, Hs;
    cbn [count_events is_VoteCast is_CandidateAdded is_VoterRegistered
         last_AdminChanged last_VotingStatusChanged];
    split_and!; try reflexivity; try lia.
  rewrite size_flagged_insert_true by assumption. lia.
Qed.

Lemma audit_ok_deploy env : audit_ok (deploy env).
Proof. rewrite deploy_eq. unfold audit_ok. cbn. by split_and!. Qed.

Lemma audit_ok_run env0 tr : audit_ok (run tr (deploy env0)).
Proof. apply (run_invariant audit_ok audit_ok_commits), audit_ok_deploy. Qed.

Lemma slots_ok_commits env s c s' :
  commits env s c s' → slots_ok s → slots_ok s'.
Proof.
  unfold slots_ok. intros Hc Hs.
  destruct Hc; cbn [registered_state candidate_added_state toggled_state
    transferred_state voted_state candidates voteCounts candidateCount];
    try assumption.
  - intros i. destruct (Hs i) as [Hin Hout].
    rewrite rd_string_insert. destruct (decide (candidateCount s + 1 = i)) as [<-|Hne].
    + split; [intros _; assumption | lia].
    + split.
      * intros Hi. apply Hin. lia.
      * intros Hi. apply Hout. lia.
  - intros i. destruct (Hs i) as [Hin Hout]. split; [assumption|].
    intros Hi. rewrite rd_uint_insert.
    destruct (decide (id = i)) as [<-|]; [lia | by apply Hout].
Qed.

Lemma slots_ok_deploy env : slots_ok (deploy env).
Proof.
  rewrite deploy_eq. intros i. cbn [candidateCount candidates voteCounts].
  split; [lia|]. intros _. split; reflexivity.
Qed.

Lemma slots_ok_run env0 tr : slots_ok (run tr (deploy env0)).
Proof. apply (run_invariant slots_ok slots_ok_commits), slots_ok_deploy. Qed.

(** The sample election as one run from deployment. *)
Lemma ballot_tied_run :
  ballot_tied = run (ballot_setup ++ ballot_votes) (deploy (mkEnv authority0 10)).
Proof. vm_compute. reflexivity. Qed.

(** ** The constructor *)

(** X1.  Whoever deploys the contract becomes its admin; the election
    starts closed, without candidates, voters or votes, with the two
    constructor events in the log.  In that storage every [vote], by any
    sender for any id, reverts with "You are not registered to vote",
    every admin function sent by anyone but the deployer reverts with
    "Only admin can perform this action", and the views report an empty
    election. *)
Theorem deploy_starts_a_closed_empty_election (env0 : Env) :
  let s := deploy env0 in
  getElectionStats s = (0, 0, false, msg_sender env0) ∧
  events s = [AdminChanged 0 (msg_sender env0) (block_timestamp env0);
              VotingStatusChanged false (block_timestamp env0)] ∧
  (∀ env id, transact (vote env id) s = (s, Reverted NotRegistered)) ∧
  (∀ env c, admin_only c = true → msg_sender env ≠ msg_sender env0 →
            transact (dispatch env c) s = (s, Reverted AccessDenied)) ∧
  (∀ v, getVoterStatus s v = (false, false, false)) ∧
  (∀ id, getCandidateInfo s id = (EmptyString, 0, false)) ∧
  showResults s = Some (Ok ([], [], 0)) ∧
  getWinner s = Some (Ok (EmptyString, 0, false)).
Proof.
  intros s. split_and!.
  - reflexivity.
  - reflexivity.
  - intros env id. rewrite transact_vote. reflexivity.
  - intros env c Hc Hne. by apply admin_only_call_denied.
  - reflexivity.
  - intros id. unfold getCandidateInfo. subst s. rewrite deploy_eq.
    cbn [candidateCount]. destruct (id =? 0) eqn:E; [reflexivity|].
    apply N.eqb_neq in E. replace (0 <? id) with true; [reflexivity|].
    symmetry. apply N.ltb_lt. lia.
  - reflexivity.
  - reflexivity.
Qed.

Lemma deploy_starts_a_closed_empty_election_witness :
  transact (addCandidate (mkEnv voterA 11) "Alice") (deploy (mkEnv authority0 10))
  = (deploy (mkEnv authority0 10), Reverted AccessDenied).
Proof.
  apply (deploy_starts_a_closed_empty_election (mkEnv authority0 10)
           : _ ∧ _ ∧ _ ∧ (∀ env c, _ → _ → transact (dispatch env c) _ = _) ∧ _)
    with (c := CallAddCandidate "Alice").
  - reflexivity.
  - unfold voterA, authority0. cbn [msg_sender]. lia.
Defined.

(** ** The candidate getter *)

Lemma getCandidateInfo_in_range s id :
  1 ≤ id ≤ candidateCount s →
  getCandidateInfo s id
  = (rd_string (candidates s) id, rd_uint (voteCounts s) id, true).
Proof.
  intros Hid. unfold getCandidateInfo.
  replace (id =? 0) with false by (symmetry; apply N.eqb_neq; lia).
  replace (candidateCount s <? id) with false by (symmetry; apply N.ltb_ge; lia).
  reflexivity.
Qed.

Lemma getCandidateInfo_out_of_range s id :
  ¬ (1 ≤ id ≤ candidateCount s) →
  getCandidateInfo s id = (EmptyString, 0, false).
Proof.
  intros Hid. unfold getCandidateInfo.
  destruct (id =? 0) eqn:E0; [reflexivity|]. apply N.eqb_neq in E0.
  replace (candidateCount s <? id) with true by (symmetry; apply N.ltb_lt; lia).
  reflexivity.
Qed.

(** X2.  In every storage reached from deployment, [getCandidateInfo(id)]
    is exactly what the public getters [candidates(id)] and
    [voteCounts(id)] read, together with whether [id] is between 1 and
    [candidateCount]: the guard for ids out of range hides nothing that
    is stored.  An id in range has a name of 1 to 64 bytes; any other id
    gives the empty name, 0 votes and exists = false. *)
Theorem getCandidateInfo_reads_the_slots
    (env0 : Env) (tr : list (Env * Call)) (id : uint) :
  let s := run tr (deploy env0) in
  let name := rd_string (candidates s) id in
  let count := rd_uint (voteCounts s) id in
  (1 ≤ id ≤ candidateCount s →
     getCandidateInfo s id = (name, count, true) ∧
     (1 ≤ String.length name ≤ 64)%nat) ∧
  (¬ (1 ≤ id ≤ candidateCount s) →
     getCandidateInfo s id = (EmptyString, 0, false) ∧
     name = EmptyString ∧ count = 0).
Proof.
  intros s name count. destruct (slots_ok_run env0 tr id) as [Hin Hout].
  split.
  - intros Hid. split; [by apply getCandidateInfo_in_range | by apply Hin].
  - intros Hid. split; [by apply getCandidateInfo_out_of_range | by apply Hout].
Qed.

Lemma getCandidateInfo_reads_the_slots_witness :
  getCandidateInfo ballot_tied 2 = ("Bob", 1, true) ∧
  getCandidateInfo ballot_tied 3 = (EmptyString, 0, false).
Proof.
  rewrite ballot_tied_run. split.
  - destruct (getCandidateInfo_reads_the_slots (mkEnv authority0 10)
                (ballot_setup ++ ballot_votes) 2) as [Hin _].
    destruct Hin as [Hin _]; [vm_compute; split; discriminate|].
    rewrite Hin. vm_compute. reflexivity.
  - destruct (getCandidateInfo_reads_the_slots (mkEnv authority0 10)
                (ballot_setup ++ ballot_votes) 3) as [_ Hout].
    destruct Hout as [Hout _]; [vm_compute; intros [_ H]; by apply H|].
    exact Hout.
Defined.

(** X3.  With [candidateCount] at most [MAX_ARRAY_LENGTH], the two
    arrays of [showResults] have [candidateCount] entries, and entry
    [id - 1] of each is what [getCandidateInfo(id)] returns for that
    candidate. *)
Theorem showResults_agrees_with_getCandidateInfo (s : State) :
  candidateCount s ≤ MAX_ARRAY_LENGTH →
  ∃ vs ns w,
    showResults s = Some (Ok (vs, ns, w)) ∧
    length vs = N.to_nat (candidateCount s) ∧
    length ns = N.to_nat (candidateCount s) ∧
    ∀ id, 1 ≤ id ≤ candidateCount s →
      ∃ name count,
        getCandidateInfo s id = (name, count, true) ∧
        vs !! N.to_nat (id - 1) = Some count ∧
        ns !! N.to_nat (id - 1) = Some name.
Proof.
  intros Hmax. rewrite showResults_eq by assumption.
  do 3 eexists. split; [reflexivity|].
  rewrite !length_fmap, length_candidate_ids. split_and!; try reflexivity.
  intros id Hid. do 2 eexists.
  split; [by apply getCandidateInfo_in_range|].
  assert (Hlook : candidate_ids (candidateCount s) !! N.to_nat (id - 1) = Some id).
  { unfold candidate_ids. rewrite list_lookup_fmap, lookup_seq_lt by lia.
    cbn. f_equal. lia. }
  rewrite !list_lookup_fmap, Hlook. split; reflexivity.
Qed.

Lemma showResults_agrees_with_getCandidateInfo_witness :
  showResults ballot_tied = Some (Ok ([1; 1], ["Alice"; "Bob"], 1)) ∧
  getCandidateInfo ballot_tied 2 = ("Bob", 1, true).
Proof.
  destruct (showResults_agrees_with_getCandidateInfo ballot_tied)
    as (vs & ns & w & Hs & _ & _ & Hall); [vm_compute; discriminate|].
  destruct (Hall 2) as (name & count & Hg & Hv & Hn);
    [vm_compute; split; discriminate|].
  assert (vs = [1; 1] ∧ ns = ["Alice"; "Bob"] ∧ w = 1) as (-> & -> & ->)
    by (vm_compute in Hs; split_and!; congruence).
  assert (count = 1) as -> by (vm_compute in Hv; congruence).
  assert (name = "Bob") as -> by (vm_compute in Hn; congruence).
  split; [exact Hs | exact Hg].
Defined.

(** ** The voter getter *)

(** X4.  [getVoterStatus(v).canVote] decides the fate of a vote sent by
    [v]: when it is false every [vote] by [v] reverts before reaching the
    candidate check, for any id; when it is true a vote for an id out of
    range reverts with "Invalid candidate ID" and a vote for an id in
    range succeeds (the two counters being below [MAX_UINT]). *)
Theorem canVote_decides_vote (s : State) (env : Env) (id : uint) :
  let canVote := snd (getVoterStatus s (msg_sender env)) in
  (canVote = false →
     transact (vote env id) s = (s, Reverted NotRegistered) ∨
     transact (vote env id) s = (s, Reverted AlreadyVoted) ∨
     transact (vote env id) s = (s, Reverted ElectionInactive)) ∧
  (canVote = true → ¬ (1 ≤ id ≤ candidateCount s) →
     transact (vote env id) s = (s, Reverted InvalidCandidate)) ∧
  (canVote = true → 1 ≤ id ≤ candidateCount s →
     rd_uint (voteCounts s) id < MAX_UINT → totalVotes s < MAX_UINT →
     transact (vote env id) s = (voted_state env id s, Success)).
Proof.
  unfold getVoterStatus. cbn [snd]. rewrite transact_vote.
  destruct (rd_bool (registeredVoters s) (msg_sender env));
    destruct (rd_bool (hasVoted s) (msg_sender env));
    destruct (votingActive s); cbn [negb andb];
    split_and!; try (intros; congruence); try (intros _; by auto).
  - intros _ Hid.
    destruct ((0 <? id) && (id <=? candidateCount s)) eqn:E; [|reflexivity].
    apply valid_id_true in E. contradiction.
  - intros _ Hid Hc Ht. apply valid_id_true in Hid. apply N.ltb_lt in Hc, Ht.
    by rewrite Hid, Hc, Ht.
Qed.

Lemma canVote_decides_vote_witness :
  transact (vote (mkEnv voterA 20) 1) ballot_open
  = (voted_state (mkEnv voterA 20) 1 ballot_open, Success).
Proof.
  pose proof (canVote_decides_vote ballot_open (mkEnv voterA 20) 1) as H.
  cbv zeta in H. destruct H as (_ & _ & H).
  apply H.
  - vm_compute. reflexivity.
  - vm_compute. split; discriminate.
  - vm_compute. reflexivity.
  - vm_compute. reflexivity.
Defined.

(** X5.  In every storage reached from deployment, [getVoterStatus]
    never reports an address that has voted as unregistered or as able
    to vote, and it reports the zero address as unregistered, not voted
    and unable to vote. *)
Theorem getVoterStatus_is_consistent
    (env0 : Env) (tr : list (Env * Call)) (v : address) :
  let s := run tr (deploy env0) in
  (∀ isRegistered canVote,
     getVoterStatus s v = (isRegistered, true, canVote) →
     isRegistered = true ∧ canVote = false) ∧
  getVoterStatus s 0 = (false, false, false).
Proof.
  intros s. destruct (registry_ok_run env0 tr) as [Hzero Hvoted].
  fold s in Hzero, Hvoted. split.
  - unfold getVoterStatus. intros r c [= <- Hv <-].
    rewrite Hv, (Hvoted v Hv). by split.
  - unfold getVoterStatus. rewrite Hzero.
    destruct (rd_bool (hasVoted s) 0) eqn:E; [|reflexivity].
    apply Hvoted in E. congruence.
Qed.

Lemma getVoterStatus_is_consistent_witness :
  rd_bool (registeredVoters ballot_tied) voterA = true.
Proof.
  rewrite ballot_tied_run.
  pose proof (getVoterStatus_is_consistent (mkEnv authority0 10)
                (ballot_setup ++ ballot_votes) voterA) as H.
  cbv zeta in H. destruct H as [H _].
  destruct (H (rd_bool (registeredVoters (run (ballot_setup ++ ballot_votes) (deploy (mkEnv authority0 10)))) voterA) false) as [H1 _];
    [vm_compute; reflexivity | exact H1].
Defined.

(** ** One address, one vote *)

(** X6.  In every storage reached from deployment, [totalVotes] is the
    number of addresses whose [hasVoted] flag is set, every such address
    is registered, and so the votes cast never outnumber the registered
    voters. *)
Theorem totalVotes_counts_voters (env0 : Env) (tr : list (Env * Call)) :
  let s := run tr (deploy env0) in
  totalVotes s = N.of_nat (size (flagged (hasVoted s))) ∧
  flagged (hasVoted s) ⊆ flagged (registeredVoters s) ∧
  totalVotes s ≤ N.of_nat (size (flagged (registeredVoters s))).
Proof.
  intros s. pose proof (ballots_ok_run env0 tr) as Hb.
  destruct (registry_ok_run env0 tr) as [_ Hvoted]. fold s in Hb, Hvoted.
  assert (Hsub : flagged (hasVoted s) ⊆ flagged (registeredVoters s)).
  { intros v. rewrite !elem_of_flagged. apply Hvoted. }
  split_and!; [exact Hb | exact Hsub |].
  rewrite Hb. apply subseteq_size in Hsub. lia.
Qed.

(** ** The log as an audit trail *)

(** X7.  In every storage reached from deployment the log accounts for
    the storage: it holds as many [VoteCast] events as [totalVotes], as
    many [CandidateAdded] events as [candidateCount], and as many
    [VoterRegistered] events as there are registered addresses. *)
Theorem log_counts_match_storage (env0 : Env) (tr : list (Env * Call)) :
  let s := run tr (deploy env0) in
  count_events is_VoteCast (events s) = totalVotes s ∧
  count_events is_CandidateAdded (events s) = candidateCount s ∧
  count_events is_VoterRegistered (events s)
  = N.of_nat (size (flagged (registeredVoters s))).
Proof.
  intros s. destruct (audit_ok_run env0 tr) as (Hv & Hc & Hr & _). by split_and!.
Qed.

(** X8.  In every storage reached from deployment the current admin is
    the new admin of the last [AdminChanged] event in the log, and
    [votingActive] is the flag of the last [VotingStatusChanged] event. *)
Theorem log_ends_with_current_admin_and_status
    (env0 : Env) (tr : list (Env * Call)) :
  let s := run tr (deploy env0) in
  last_AdminChanged 0 (events s) = admin s ∧
  last_VotingStatusChanged false (events s) = votingActive s.
Proof.
  intros s. destruct (audit_ok_run env0 tr) as (_ & _ & _ & Ha & Hs). by split.
Qed.

Lemma events_commits env s c s' :
  commits env s c s' → ∃ e, events s' = events s ++ [e].
Proof. intros Hc. destruct Hc; cbn; eauto. Qed.

Lemma events_run_prefix tr :
  ∀ s, events s `prefix_of` events (run tr s).
Proof.
  induction tr as [|[env c] tr IH]; intros s; cbn [run fold_left fst snd].
  - reflexivity.
  - specialize (IH (step env c s)). unfold run in IH.
    etrans; [|exact IH].
    destruct (step_cases env c s) as [->|Hc]; [reflexivity|].
    apply events_commits in Hc as [e ->]. by apply prefix_app_r.
Qed.

(** X9.  The log is append-only.  A transaction that succeeds appends
    exactly one event and one that reverts appends none; whatever
    transactions follow, the log of a storage stays a prefix of the
    later log. *)
Theorem log_is_append_only (s : State) (env : Env) (c : Call)
    (tr : list (Env * Call)) :
  (snd (transact (dispatch env c) s) = Success →
     ∃ e, events (step env c s) = events s ++ [e]) ∧
  (∀ err, snd (transact (dispatch env c) s) = Reverted err →
     events (step env c s) = events s) ∧
  events s `prefix_of` events (run tr s).
Proof.
  split_and!.
  - unfold step.
    destruct (transact_cases env c s) as [[e ->]|[s' [-> Hc]]]; [discriminate|].
    intros _. by apply events_commits in Hc.
  - intros err Herr. unfold step. by rewrite (transact_reverted _ _ _ Herr).
  - apply events_run_prefix.
Qed.

Lemma log_is_append_only_witness :
  events (step (mkEnv voterA 20) (CallVote 1) ballot_open)
  = events ballot_open ++ [VoteCast voterA 1 20].
Proof.
  destruct (log_is_append_only ballot_open (mkEnv voterA 20) (CallVote 1) [])
    as (Hok & _ & _).
  destruct Hok as [e He]; [vm_compute; reflexivity|].
  assert (e = VoteCast voterA 1 20) as ->
    by (vm_compute in He |- *; congruence).
  exact He.
Defined.

(** ** What a transaction never undoes *)

Lemma grows_commits env s c s' :
  commits env s c s' →
  candidateCount s ≤ candidateCount s' ∧
  totalVotes s ≤ totalVotes s' ∧
  (∀ i, rd_uint (voteCounts s) i ≤ rd_uint (voteCounts s') i) ∧
  (∀ v, rd_bool (registeredVoters s) v = true →
        rd_bool (registeredVoters s') v = true) ∧
  (∀ i, 1 ≤ i ≤ candidateCount s →
        rd_string (candidates s') i = rd_string (candidates s) i).
Proof.
  intros Hc. destruct Hc; cbn [registered_state candidate_added_state
    toggled_state transferred_state voted_state candidateCount totalVotes
    voteCounts registeredVoters candidates]; split_and!; try done; try lia.
  - intros w Hw. rewrite rd_bool_insert. by destruct (decide (v = w)).
  - intros i Hi. rewrite rd_string_insert.
    destruct (decide (candidateCount s + 1 = i)); [lia | reflexivity].
  - intros i. rewrite rd_uint_insert.
    destruct (decide (id = i)) as [<-|]; lia.
Qed.

(** X10.  No sequence of transactions, from any storage, takes anything
    back: [candidateCount], [totalVotes] and every candidate's count
    never decrease, a registered address stays registered, and the name
    of an existing candidate never changes. *)
Theorem storage_only_grows (tr : list (Env * Call)) (s : State) :
  candidateCount s ≤ candidateCount (run tr s) ∧
  totalVotes s ≤ totalVotes (run tr s) ∧
  (∀ i, rd_uint (voteCounts s) i ≤ rd_uint (voteCounts (run tr s)) i) ∧
  (∀ v, rd_bool (registeredVoters s) v = true →
        rd_bool (registeredVoters (run tr s)) v = true) ∧
  (∀ i, 1 ≤ i ≤ candidateCount s →
        rd_string (candidates (run tr s)) i = rd_string (candidates s) i).
Proof.
  revert s. induction tr as [|[env c] tr IH]; intros s.
  - cbn. split_and!; try done; lia.
  - change (run ((env, c) :: tr) s) with (run tr (step env c s)).
    destruct (IH (step env c s)) as (Hc & Ht & Hv & Hr & Hn).
    assert (Hstep : candidateCount s ≤ candidateCount (step env c s) ∧
      totalVotes s ≤ totalVotes (step env c s) ∧
      (∀ i, rd_uint (voteCounts s) i ≤ rd_uint (voteCounts (step env c s)) i) ∧
      (∀ v, rd_bool (registeredVoters s) v = true →
            rd_bool (registeredVoters (step env c s)) v = true) ∧
      (∀ i, 1 ≤ i ≤ candidateCount s →
            rd_string (candidates (step env c s)) i = rd_string (candidates s) i)).
    { destruct (step_cases env c s) as [->|Hcm];
        [split_and!; try done; lia | by eapply grows_commits]. }
    destruct Hstep as (Hc1 & Ht1 & Hv1 & Hr1 & Hn1). split_and!.
    + lia.
    + lia.
    + intros i. specialize (Hv i). specialize (Hv1 i). lia.
    + auto.
    + intros i Hi. rewrite Hn by lia. by apply Hn1.
Qed.

Lemma storage_only_grows_witness :
  rd_string (candidates (run ballot_votes ballot_open)) 1
  = rd_string (candidates ballot_open) 1.
Proof.
  destruct (storage_only_grows ballot_votes ballot_open) as (_ & _ & _ & _ & H).
  apply H. vm_compute. split; discriminate.
Defined.

(** X11.  A transaction sent by anyone but the admin cannot touch the
    set-up of the election: it leaves the admin, the activation flag,
    the candidates and the registrations as they were, and it changes
    the storage at all only when it is a successful [vote]. *)
Theorem non_admin_can_only_vote (s : State) (env : Env) (c : Call) :
  msg_sender env ≠ admin s →
  let s' := step env c s in
  admin s' = admin s ∧
  votingActive s' = votingActive s ∧
  candidateCount s' = candidateCount s ∧
  candidates s' = candidates s ∧
  registeredVoters s' = registeredVoters s ∧
  (s' = s ∨ ∃ id, c = CallVote id ∧ s' = voted_state env id s).
Proof.
  intros Hne s'. subst s'.
  destruct (step_cases env c s) as [->|Hc]; [by split_and!; auto|].
  destruct Hc; try contradiction. split_and!; try reflexivity. right. eauto.
Qed.

Lemma non_admin_can_only_vote_witness :
  votingActive (step (mkEnv voterA 20) CallToggleVoting ballot_open)
  = votingActive ballot_open.
Proof.
  pose proof (non_admin_can_only_vote ballot_open (mkEnv voterA 20)
                CallToggleVoting) as H.
  cbv zeta in H. destruct H as (_ & H & _); [vm_compute; discriminate|].
  exact H.
Defined.

(** X12.  When the deployer is not the zero address, the admin is never
    the zero address, whatever transactions follow. *)
Theorem admin_is_never_zero (env0 : Env) (tr : list (Env * Call)) :
  msg_sender env0 ≠ 0 → admin (run tr (deploy env0)) ≠ 0.
Proof.
  intros H0.
  apply (run_invariant (λ s, admin s ≠ 0)); [|exact H0].
  intros env s c s' Hc Hs. destruct Hc; assumption.
Qed.

Lemma admin_is_never_zero_witness : admin ballot_tied ≠ 0.
Proof.
  rewrite ballot_tied_run.
  apply (admin_is_never_zero (mkEnv authority0 10) (ballot_setup ++ ballot_votes)).
  vm_compute. discriminate.
Defined.

(** X13.  While the election is inactive no transaction changes a vote
    count, [totalVotes] or a [hasVoted] flag. *)
Theorem inactive_election_freezes_tally (s : State) (env : Env) (c : Call) :
  votingActive s = false →
  voteCounts (step env c s) = voteCounts s ∧
  totalVotes (step env c s) = totalVotes s ∧
  hasVoted (step env c s) = hasVoted s.
Proof.
  intros Hoff. destruct (step_cases env c s) as [->|Hc]; [done|].
  destruct Hc; try done. congruence.
Qed.

Lemma inactive_election_freezes_tally_witness :
  totalVotes (step (mkEnv voterA 20) (CallVote 1)
                (toggled_state (mkEnv authority0 16) ballot_open))
  = totalVotes (toggled_state (mkEnv authority0 16) ballot_open).
Proof.
  destruct (inactive_election_freezes_tally
              (toggled_state (mkEnv authority0 16) ballot_open)
              (mkEnv voterA 20) (CallVote 1)) as (_ & H & _);
    [vm_compute; reflexivity | exact H].
Defined.

(** ** Votes and results together *)

Lemma sum_bounded_by_max (f : uint → uint) (l : list uint) (m : uint) :
  (∀ j, j ∈ l → f j ≤ m) →
  foldr N.add 0 (f <$> l) ≤ N.of_nat (length l) * m.
Proof.
  induction l as [|i l IH]; intros H; cbn [fmap list_fmap foldr length]; [lia|].
  assert (f i ≤ m) by (apply H, elem_of_cons; by left).
  assert (foldr N.add 0 (f <$> l) ≤ N.of_nat (length l) * m).
  { apply IH. intros j Hj. apply H, elem_of_cons. by right. }
  lia.
Qed.

Lemma sum_bounds_member (f : uint → uint) (l : list uint) (w : uint) :
  w ∈ l → f w ≤ foldr N.add 0 (f <$> l).
Proof.
  induction l as [|i l IH]; [by rewrite elem_of_nil|].
  rewrite elem_of_cons. cbn [fmap list_fmap foldr].
  intros [->|Hw]; [lia|]. specialize (IH Hw). lia.
Qed.

(** X14.  In every storage reached from deployment with at least one
    candidate ([candidateCount] below [MAX_UINT]), the vote count that
    [getWinner] reports is at most [totalVotes] and at least the average:
    [candidateCount] times the winner's count is at least [totalVotes]. *)
Theorem winner_count_between_average_and_total
    (env0 : Env) (tr : list (Env * Call)) :
  let s := run tr (deploy env0) in
  1 ≤ candidateCount s →
  candidateCount s < MAX_UINT →
  ∃ name top,
    getWinner s = Some (Ok (name, top, true)) ∧
    top ≤ totalVotes s ∧
    totalVotes s ≤ candidateCount s * top.
Proof.
  intros s Hn Hmax. rewrite getWinner_eq by assumption.
  replace (candidateCount s =? 0) with false by (symmetry; apply N.eqb_neq; lia).
  cbv zeta. do 2 eexists. split; [reflexivity|].
  destruct (spec_linear_scan_lowest_max (rd_uint (voteCounts s))
              (candidateCount s) Hn) as (Hw & Htop & Hall & _).
  destruct (tally_ok_run env0 tr) as [Hsum _]. fold s in Hsum.
  rewrite Hsum, Htop. unfold sum_votes. split.
  - apply sum_bounds_member. by apply elem_of_candidate_ids.
  - etrans; [apply sum_bounded_by_max|].
    + intros j Hj. apply Hall. by apply elem_of_candidate_ids.
    + rewrite length_candidate_ids. lia.
Qed.

Lemma winner_count_between_average_and_total_witness :
  getWinner ballot_tied = Some (Ok ("Alice", 1, true)).
Proof.
  rewrite ballot_tied_run.
  pose proof (winner_count_between_average_and_total (mkEnv authority0 10)
                (ballot_setup ++ ballot_votes)) as H.
  cbv zeta in H.
  destruct H as (name & top & Hg & _);
    [vm_compute; discriminate | vm_compute; reflexivity |].
  assert (name = "Alice" ∧ top = 1) as [-> ->]
    by (vm_compute in Hg; split; congruence).
  exact Hg.
Defined.

Lemma candidate_ids_lookup (n : uint) (k : nat) :
  (k < N.to_nat n)%nat → candidate_ids n !! k = Some (N.of_nat (S k)).
Proof.
  intros Hk. unfold candidate_ids.
  rewrite list_lookup_fmap, lookup_seq_lt by assumption. reflexivity.
Qed.

Lemma fmap_rd_uint_insert (m : gmap uint uint) (n id x : uint) :
  1 ≤ id ≤ n →
  rd_uint (<[id := x]> m) <$> candidate_ids n
  = <[N.to_nat (id - 1) := x]> (rd_uint m <$> candidate_ids n).
Proof.
  intros Hid. apply list_eq. intros k.
  destruct (decide (k = N.to_nat (id - 1))) as [->|Hne].
  - rewrite list_lookup_insert_eq
      by (rewrite length_fmap, length_candidate_ids; lia).
    rewrite list_lookup_fmap, candidate_ids_lookup by lia.
    cbn. rewrite rd_uint_insert, decide_True by lia. reflexivity.
  - rewrite list_lookup_insert_ne by congruence.
    rewrite !list_lookup_fmap.
    destruct (decide (k < N.to_nat n)%nat) as [Hk|Hk].
    + rewrite candidate_ids_lookup by assumption. cbn.
      rewrite rd_uint_insert, decide_False by lia. reflexivity.
    + rewrite (lookup_ge_None_2 (candidate_ids n) k)
        by (rewrite length_candidate_ids; lia).
      reflexivity.
Qed.

(** X15.  A successful [vote] for candidate [id] shows in the results as
    one more vote in entry [id - 1] of the votes array and nothing else:
    the other entries and the names array of [showResults] are as
    before ([candidateCount] at most [MAX_ARRAY_LENGTH]). *)
Theorem vote_shows_in_results (s s' : State) (env : Env) (id : uint) :
  transact (vote env id) s = (s', Success) →
  candidateCount s ≤ MAX_ARRAY_LENGTH →
  ∃ vs ns w w' count,
    showResults s = Some (Ok (vs, ns, w)) ∧
    vs !! N.to_nat (id - 1) = Some count ∧
    showResults s' = Some (Ok (<[N.to_nat (id - 1) := count + 1]> vs, ns, w')).
Proof.
  intros Hvote Hmax. apply transact_vote_success in Hvote.
  destruct Hvote as (_ & _ & _ & Hid & _ & _ & ->).
  rewrite !showResults_eq by assumption.
  cbn [voted_state candidateCount voteCounts candidates].
  rewrite fmap_rd_uint_insert by assumption.
  do 5 eexists. split_and!; try reflexivity.
  rewrite list_lookup_fmap, candidate_ids_lookup by lia. cbn.
  do 2 f_equal. lia.
Qed.

Lemma vote_shows_in_results_witness :
  showResults (voted_state (mkEnv voterA 20) 2 ballot_open)
  = Some (Ok (<[N.to_nat (2 - 1) := 0 + 1]> [0; 0], ["Alice"; "Bob"], 2)).
Proof.
  destruct (vote_shows_in_results ballot_open
              (voted_state (mkEnv voterA 20) 2 ballot_open) (mkEnv voterA 20) 2)
    as (vs & ns & w & w' & count & Hs & Hc & Hs');
    [vm_compute; reflexivity | vm_compute; discriminate |].
  assert (vs = [0; 0] ∧ ns = ["Alice"; "Bob"]) as [-> ->]
    by (vm_compute in Hs; split; congruence).
  assert (count = 0) as -> by (vm_compute in Hc; congruence).
  assert (w' = 2) as -> by (vm_compute in Hs'; congruence).
  exact Hs'.
Defined.

(** X16.  A vote can only help the candidate it is cast for: after a
    successful [vote] for [id] the winner that [showResults] reports is
    either the winner it reported before or [id] ([candidateCount] at
    most [MAX_ARRAY_LENGTH]). *)
Theorem vote_moves_winner_only_to_its_candidate
    (s s' : State) (env : Env) (id : uint) :
  transact (vote env id) s = (s', Success) →
  candidateCount s ≤ MAX_ARRAY_LENGTH →
  ∃ vs ns w vs' ns' w',
    showResults s = Some (Ok (vs, ns, w)) ∧
    showResults s' = Some (Ok (vs', ns', w')) ∧
    (w' = w ∨ w' = id).
Proof.
  intros Hvote Hmax. apply transact_vote_success in Hvote.
  destruct Hvote as (_ & _ & _ & Hid & _ & _ & ->).
  rewrite !showResults_eq by assumption.
  cbn [voted_state candidateCount voteCounts candidates].
  replace (candidateCount s =? 0) with false by (symmetry; apply N.eqb_neq; lia).
  do 6 eexists. split_and!; try reflexivity.
  set (f := rd_uint (voteCounts s)).
  set (f' := rd_uint (<[id := f id + 1]> (voteCounts s))).
  assert (Hn : 1 ≤ candidateCount s) by lia.
  destruct (spec_linear_scan_lowest_max f (candidateCount s) Hn)
    as (Hw & _ & Hmaxw & Hfirstw).
  destruct (spec_linear_scan_lowest_max f' (candidateCount s) Hn)
    as (Hw' & _ & Hmaxw' & Hfirstw').
  cbv zeta in *.
  set (w := snd (spec_linear_scan f (candidate_ids (candidateCount s)))) in *.
  set (w' := snd (spec_linear_scan f' (candidate_ids (candidateCount s)))) in *.
  assert (Hf' : ∀ j, f' j = if decide (id = j) then f id + 1 else f j).
  { intros j. unfold f'. apply rd_uint_insert. }
  destruct (decide (w' = id)) as [|Hne]; [by right|]. left.
  assert (Hsame : f' w' = f w') by (rewrite Hf', decide_False; congruence).
  assert (Hge : ∀ j, f j ≤ f' j).
  { intros j. rewrite Hf'. destruct (decide (id = j)) as [<-|]; lia. }
  destruct (N.lt_trichotomy w w') as [Hlt|[Heq|Hgt]]; [|done|].
  - specialize (Hfirstw' w ltac:(lia)). specialize (Hmaxw w' ltac:(lia)).
    specialize (Hge w). lia.
  - specialize (Hfirstw w' ltac:(lia)). specialize (Hmaxw' w ltac:(lia)).
    specialize (Hge w). lia.
Qed.

Lemma vote_moves_winner_only_to_its_candidate_witness :
  showResults (voted_state (mkEnv voterA 20) 2 ballot_open)
  = Some (Ok ([0; 1], ["Alice"; "Bob"], 2)) ∧
  showResults ballot_open = Some (Ok ([0; 0], ["Alice"; "Bob"], 1)).
Proof.
  destruct (vote_moves_winner_only_to_its_candidate ballot_open
              (voted_state (mkEnv voterA 20) 2 ballot_open) (mkEnv voterA 20) 2)
    as (vs & ns & w & vs' & ns' & w' & Hs & Hs' & _);
    [vm_compute; reflexivity | vm_compute; discriminate |].
  assert (vs = [0; 0] ∧ ns = ["Alice"; "Bob"] ∧ w = 1) as (-> & -> & ->)
    by (vm_compute in Hs; split_and!; congruence).
  assert (vs' = [0; 1] ∧ ns' = ["Alice"; "Bob"] ∧ w' = 2) as (-> & -> & ->)
    by (vm_compute in Hs'; split_and!; congruence).
  split; [exact Hs' | exact Hs].
Defined.

(** X17.  In every storage reached from deployment ([candidateCount]
    at most [MAX_ARRAY_LENGTH]) [getElectionStats] and [showResults]
    agree: the number of candidates is the length of the votes array
    and the total of votes cast is the sum of its entries. *)
Theorem stats_match_results (env0 : Env) (tr : list (Env * Call)) :
  let s := run tr (deploy env0) in
  candidateCount s ≤ MAX_ARRAY_LENGTH →
  ∃ vs ns w,
    showResults s = Some (Ok (vs, ns, w)) ∧
    getElectionStats s
    = (N.of_nat (length vs), foldr N.add 0 vs, votingActive s, admin s).
Proof.
  intros s Hmax. rewrite showResults_eq by assumption.
  do 3 eexists. split; [reflexivity|].
  destruct (tally_ok_run env0 tr) as [Hsum _]. fold s in Hsum.
  unfold getElectionStats. rewrite length_fmap, length_candidate_ids, Hsum.
  unfold sum_votes. do 3 f_equal. lia.
Qed.

Lemma stats_match_results_witness :
  getElectionStats ballot_tied
  = (N.of_nat (length [1; 1]), foldr N.add 0 [1; 1],
     votingActive ballot_tied, admin ballot_tied).
Proof.
  rewrite ballot_tied_run.
  pose proof (stats_match_results (mkEnv authority0 10)
                (ballot_setup ++ ballot_votes)) as H.
  cbv zeta in H.
  destruct H as (vs & ns & w & Hs & Hg); [vm_compute; discriminate|].
  assert (vs = [1; 1]) as -> by (vm_compute in Hs; congruence).
  exact Hg.
Defined.

(** ** Registration and voting in sequence *)

Lemma getVoterStatus_registered_state env v s w :
  getVoterStatus (registered_state env v s) w
  = if decide (v = w)
    then (true, rd_bool (hasVoted s) w,
          negb (rd_bool (hasVoted s) w) && votingActive s)
    else getVoterStatus s w.
Proof.
  unfold getVoterStatus, registered_state.
  cbn [registeredVoters hasVoted votingActive]. rewrite rd_bool_insert.
  by destruct (decide (v = w)).
Qed.

(** X18.  In every storage reached from deployment, once the admin has
    registered a fresh non-zero address [v], [getVoterStatus(v)] reports
    it registered, not voted, and able to vote exactly when the election
    is active; the status of every other address is as before. *)
Theorem registerVoter_then_getVoterStatus
    (env0 : Env) (tr : list (Env * Call)) (env : Env) (v : address) :
  let s := run tr (deploy env0) in
  let s' := step env (CallRegisterVoter v) s in
  msg_sender env = admin s →
  v ≠ 0 →
  rd_bool (registeredVoters s) v = false →
  getVoterStatus s' v = (true, false, votingActive s) ∧
  (∀ w, w ≠ v → getVoterStatus s' w = getVoterStatus s w).
Proof.
  intros s s' Ha Hv Hr.
  destruct (registry_ok_run env0 tr) as [_ Hvoted]. fold s in Hvoted.
  assert (Hs' : s' = registered_state env v s).
  { unfold s', step. cbn [dispatch].
    rewrite transact_registerVoter, Hr by assumption.
    apply N.eqb_neq in Hv. by rewrite Hv. }
  rewrite Hs'. split.
  - rewrite getVoterStatus_registered_state, decide_True by reflexivity.
    destruct (rd_bool (hasVoted s) v) eqn:E; [|reflexivity].
    apply Hvoted in E. congruence.
  - intros w Hw. rewrite getVoterStatus_registered_state, decide_False; congruence.
Qed.

Lemma registerVoter_then_getVoterStatus_witness :
  getVoterStatus
    (step (mkEnv authority0 40) (CallRegisterVoter 2003)
       (run ballot_setup (deploy (mkEnv authority0 10)))) 2003
  = (true, false, votingActive (run ballot_setup (deploy (mkEnv authority0 10)))).
Proof.
  pose proof (registerVoter_then_getVoterStatus (mkEnv authority0 10) ballot_setup
                (mkEnv authority0 40) 2003) as H.
  cbv zeta in H.
  destruct H as [H _];
    [vm_compute; reflexivity | lia | vm_compute; reflexivity |].
  exact H.
Defined.

Lemma registeredVoters_run_mono tr :
  ∀ s v, rd_bool (registeredVoters s) v = true →
         rd_bool (registeredVoters (run tr s)) v = true.
Proof.
  induction tr as [|[env c] tr IH]; intros s v Hv; [assumption|].
  change (run ((env, c) :: tr) s) with (run tr (step env c s)). apply IH.
  destruct (step_cases env c s) as [->|Hc]; [assumption|].
  by apply (grows_commits env s c _ Hc).
Qed.

(** X19.  One address, one vote, for good: after a successful [vote] by
    an address, every later [vote] by that address, for any candidate and
    after any transactions in between, reverts with "You have already
    voted" and changes nothing. *)
Theorem second_vote_is_always_refused
    (s s' : State) (env env' : Env) (id id' : uint) (tr : list (Env * Call)) :
  transact (vote env id) s = (s', Success) →
  msg_sender env' = msg_sender env →
  transact (vote env' id') (run tr s') = (run tr s', Reverted AlreadyVoted).
Proof.
  intros Hvote Hsame. apply transact_vote_success in Hvote.
  destruct Hvote as (Hreg & _ & _ & _ & _ & _ & ->).
  rewrite transact_vote, Hsame.
  rewrite (registeredVoters_run_mono tr (voted_state env id s)) by exact Hreg.
  rewrite (hasVoted_run_mono tr (voted_state env id s)); [reflexivity|].
  cbn [voted_state hasVoted]. rewrite rd_bool_insert. by rewrite decide_True.
Qed.

Lemma second_vote_is_always_refused_witness :
  transact (vote (mkEnv voterA 30) 2)
    (run [(mkEnv voterB 21, CallVote 2)]
       (voted_state (mkEnv voterA 20) 1 ballot_open))
  = (run [(mkEnv voterB 21, CallVote 2)]
       (voted_state (mkEnv voterA 20) 1 ballot_open),
     Reverted AlreadyVoted).
Proof.
  apply (second_vote_is_always_refused ballot_open
           (voted_state (mkEnv voterA 20) 1 ballot_open) (mkEnv voterA 20)
           (mkEnv voterA 30) 1 2 [(mkEnv voterB 21, CallVote 2)]).
  - vm_compute. reflexivity.
  - reflexivity.
Defined.

(** ** Handing the admin role back *)

(** X20.  A hand-over can be undone only by the new admin: after the
    admin [a] has transferred the role to [b], [transferAdmin(a)] sent by
    [b] succeeds and restores the storage except for the two
    [AdminChanged] events in the log ([a] not being the zero address),
    while the same call sent by [a] reverts with "Only admin can perform
    this action". *)
Theorem transferAdmin_back_restores_storage
    (s : State) (env1 env2 : Env) (b : address) :
  let a := admin s in
  let s1 := transferred_state env1 b s in
  msg_sender env1 = a →
  msg_sender env2 = b →
  a ≠ 0 → b ≠ 0 → b ≠ a →
  transact (transferAdmin env1 b) s = (s1, Success) ∧
  transact (transferAdmin env1 a) s1 = (s1, Reverted AccessDenied) ∧
  transact (transferAdmin env2 a) s1
  = (mkState a (registeredVoters s) (hasVoted s) (voteCounts s) (candidates s)
       (candidateCount s) (totalVotes s) (votingActive s)
       (events s ++ [AdminChanged a b (block_timestamp env1);
                     AdminChanged b a (block_timestamp env2)]),
     Success).
Proof.
  intros a s1 H1 H2 Ha Hb Hne. split_and!.
  - rewrite transact_transferAdmin by assumption.
    apply N.eqb_neq in Hb, Hne. fold a. by rewrite Hb, Hne.
  - apply (admin_only_call_denied env1 (CallTransferAdmin a) s1); [reflexivity|].
    cbn. congruence.
  - rewrite transact_transferAdmin by assumption.
    change (admin s1) with b.
    replace (a =? 0) with false by (symmetry; by apply N.eqb_neq).
    replace (a =? b) with false by (symmetry; apply N.eqb_neq; congruence).
    unfold s1, transferred_state. cbn [admin registeredVoters hasVoted voteCounts
      candidates candidateCount totalVotes votingActive events].
    by rewrite <- app_assoc.
Qed.

Lemma transferAdmin_back_restores_storage_witness :
  transact (transferAdmin (mkEnv authority0 50) (admin ballot_open))
    (transferred_state (mkEnv authority0 50) voterB ballot_open)
  = (transferred_state (mkEnv authority0 50) voterB ballot_open,
     Reverted AccessDenied).
Proof.
  pose proof (transferAdmin_back_restores_storage ballot_open
                (mkEnv authority0 50) (mkEnv voterB 51) voterB) as H.
  cbv zeta in H.
  destruct H as (_ & H & _);
    [vm_compute; reflexivity | reflexivity | vm_compute; discriminate
    | vm_compute; discriminate | vm_compute; discriminate |].
  exact H.
Defined.

(** * The input checks of the front end *)

(** ** Trimming *)

Lemma js_trimStart_split x : ∃ p, x = p ++ js_trimStart x.
Proof.
  induction x as [|u x [p IH]]; [by exists []|]. cbn [js_trimStart].
  destruct (is_js_white_space u).
  - exists (u :: p). cbn. by rewrite <- IH.
  - by exists [].
Qed.

Lemma js_trimStart_length x : (length (js_trimStart x) ≤ length x)%nat.
Proof.
  destruct (js_trimStart_split x) as [p Hp]. rewrite Hp at 2.
  rewrite length_app. lia.
Qed.

Lemma js_trimStart_idem x : js_trimStart (js_trimStart x) = js_trimStart x.
Proof.
  induction x as [|u x IH]; [reflexivity|]. cbn [js_trimStart].
  destruct (is_js_white_space u) eqn:E; [assumption|].
  cbn [js_trimStart]. by rewrite E.
Qed.

(** A string that [trimStart] leaves alone keeps that property when a
    tail is cut off. *)
Lemma js_trimStart_fixed_prefix y q :
  js_trimStart (y ++ q) = y ++ q → js_trimStart y = y.
Proof.
  destruct y as [|u y]; [reflexivity|]. cbn [app js_trimStart].
  destruct (is_js_white_space u); [|reflexivity].
  intros H. pose proof (js_trimStart_length (y ++ q)) as Hlen.
  rewrite H in Hlen. cbn [length] in Hlen. lia.
Qed.

Lemma js_trim_idem x : js_trim (js_trim x) = js_trim x.
Proof.
  unfold js_trim, js_trimEnd.
  set (z := js_trimStart (rev (js_trimStart x))).
  assert (Hz : js_trimStart z = z) by apply js_trimStart_idem.
  assert (Hy : js_trimStart (rev z) = rev z).
  { destruct (js_trimStart_split (rev (js_trimStart x))) as [p Hp]. fold z in Hp.
    apply (js_trimStart_fixed_prefix (rev z) (rev p)).
    rewrite <- rev_app_distr, <- Hp, rev_involutive. apply js_trimStart_idem. }
  by rewrite Hy, rev_involutive, Hz.
Qed.

Lemma js_trim_nil : js_trim [] = [].
Proof. reflexivity. Qed.

Lemma validateCandidateName_true name :
  validateCandidateName name = true ↔ (1 ≤ length (js_trim name) ≤ 64)%nat.
Proof.
  unfold validateCandidateName.
  rewrite !andb_true_iff, negb_true_iff, bool_decide_eq_false,
    Nat.ltb_lt, Nat.leb_le.
  split; [lia|]. intros H. split_and!; try lia.
  intros ->. rewrite js_trim_nil in H. cbn in H. lia.
Qed.

(** X21.  [validateCandidateName] accepts a name exactly when it has
    between 1 and 64 code units after trimming, and trimming a name
    first changes neither the trimmed name nor the verdict: the check on
    the raw form field and the check on the trimmed value that is sent
    agree. *)
Theorem validateCandidateName_ignores_outer_white_space (x : list N) :
  (validateCandidateName x = true ↔ (1 ≤ length (js_trim x) ≤ 64)%nat) ∧
  js_trim (js_trim x) = js_trim x ∧
  validateCandidateName (js_trim x) = validateCandidateName x.
Proof.
  split_and!.
  - apply validateCandidateName_true.
  - apply js_trim_idem.
  - apply eq_true_iff_eq. rewrite !validateCandidateName_true, js_trim_idem.
    reflexivity.
Qed.

Lemma validateCandidateName_ignores_outer_white_space_witness :
  validateCandidateName ([0x20; 0x9] ++ carol_text ++ [0xA0; 0xA]) = true.
Proof.
  destruct (validateCandidateName_ignores_outer_white_space
              ([0x20; 0x9] ++ carol_text ++ [0xA0; 0xA])) as ([_ H] & _ & _).
  apply H. vm_compute. lia.
Defined.

Lemma ascii_bytes_length x : String.length (ascii_bytes x) = length x.
Proof. induction x as [|u x IH]; cbn; congruence. Qed.

(** X22.  What the admin panel sends is what the contract takes: a
    trimmed name of ASCII code units that [validateCandidateName]
    accepts passes both name checks of [addCandidate], so the admin's
    call succeeds ([candidateCount] below [MAX_UINT]). *)
Theorem validated_ascii_name_is_accepted_by_addCandidate
    (input : list N) (s : State) (env : Env) :
  let candidateName := js_trim input in
  validateCandidateName candidateName = true →
  Forall (λ u, u < 128) candidateName →
  msg_sender env = admin s →
  candidateCount s < MAX_UINT →
  transact (addCandidate env (ascii_bytes candidateName)) s
  = (candidate_added_state env (ascii_bytes candidateName) s, Success).
Proof.
  intros name Hvalid _ Ha Hc.
  apply validateCandidateName_true in Hvalid.
  unfold name in Hvalid. rewrite js_trim_idem in Hvalid.
  apply transact_addCandidate_ok; [assumption | | assumption].
  by rewrite ascii_bytes_length.
Qed.

Lemma validated_ascii_name_is_accepted_by_addCandidate_witness :
  transact (addCandidate (mkEnv authority0 40)
              (ascii_bytes (js_trim ([0x20] ++ carol_text ++ [0x20]))))
    ballot_open
  = (candidate_added_state (mkEnv authority0 40)
       (ascii_bytes (js_trim ([0x20] ++ carol_text ++ [0x20]))) ballot_open,
     Success).
Proof.
  apply (validated_ascii_name_is_accepted_by_addCandidate
           ([0x20] ++ carol_text ++ [0x20]) ballot_open (mkEnv authority0 40)).
  - vm_compute. reflexivity.
  - vm_compute. repeat constructor.
  - vm_compute. reflexivity.
  - vm_compute. reflexivity.
Defined.

(** ** Addresses *)

Lemma hex_digit_value_bound u : is_hex_digit u = true → hex_digit_value u < 16.
Proof.
  unfold is_hex_digit, hex_digit_value.
  rewrite !orb_true_iff, !andb_true_iff, !N.leb_le. intros H.
  destruct ((0x30 <=? u) && (u <=? 0x39)) eqn:E1;
    [apply andb_true_iff in E1; rewrite !N.leb_le in E1; lia|].
  destruct ((0x41 <=? u) && (u <=? 0x46)) eqn:E2;
    [apply andb_true_iff in E2; rewrite !N.leb_le in E2; lia|].
  apply andb_false_iff in E1, E2. rewrite !N.leb_gt in E1, E2. lia.
Qed.

Lemma hex_value_bound digits :
  forallb is_hex_digit digits = true →
  ∀ acc, fold_left (λ acc u, 16 * acc + hex_digit_value u) digits acc
         < (acc + 1) * 16 ^ N.of_nat (length digits).
Proof.
  induction digits as [|u digits IH]; intros Hall acc.
  - cbn. lia.
  - cbn [forallb] in Hall. apply andb_true_iff in Hall as [Hu Hall].
    cbn [fold_left length]. specialize (IH Hall (16 * acc + hex_digit_value u)).
    apply hex_digit_value_bound in Hu.
    rewrite Nat2N.inj_succ, N.pow_succ_r'. nia.
Qed.

Lemma registerVoter_zero_reverts env s :
  snd (transact (registerVoter env 0) s) ≠ Success.
Proof.
  unfold transact. rewrite registerVoter_eq.
  destruct (msg_sender env =? admin s); cbn [negb]; [|discriminate].
  destruct (rd_bool (registeredVoters s) 0); discriminate.
Qed.

Lemma transferAdmin_zero_reverts env s :
  snd (transact (transferAdmin env 0) s) ≠ Success.
Proof.
  unfold transact. rewrite transferAdmin_eq.
  destruct (msg_sender env =? admin s); cbn [negb]; discriminate.
Qed.

(** X23.  A string that [validateEthereumAddress] accepts has 42 code
    units and denotes a number below [2^160], so it fits an [address].
    The check does not exclude the zero address: when an accepted string
    denotes 0, [registerVoter] and [transferAdmin] called with it revert
    in every storage, whoever sends them. *)
Theorem validateEthereumAddress_accepts_160_bit_hex (a : list N) :
  validateEthereumAddress a = true →
  length a = 42%nat ∧
  address_value a < 2 ^ 160 ∧
  (address_value a = 0 →
   ∀ env s,
     snd (transact (registerVoter env (address_value a)) s) ≠ Success ∧
     snd (transact (transferAdmin env (address_value a)) s) ≠ Success).
Proof.
  destruct a as [|u0 [|u1 digits]]; try discriminate.
  unfold validateEthereumAddress, address_value.
  rewrite !andb_true_iff, Nat.eqb_eq. intros [[[_ _] Hlen] Hall].
  cbn [drop length]. split_and!.
  - lia.
  - pose proof (hex_value_bound digits Hall 0) as H. rewrite Hlen in H.
    unfold hex_value. change ((0 + 1) * 16 ^ N.of_nat 40) with (2 ^ 160) in H.
    exact H.
  - intros ->. intros env s.
    split; [apply registerVoter_zero_reverts | apply transferAdmin_zero_reverts].
Qed.

Lemma validateEthereumAddress_accepts_160_bit_hex_witness :
  length zero_address_text = 42%nat ∧
  snd (transact (registerVoter (mkEnv authority0 40)
                   (address_value zero_address_text)) ballot_open) ≠ Success.
Proof.
  destruct (validateEthereumAddress_accepts_160_bit_hex zero_address_text)
    as (Hlen & _ & Hzero); [vm_compute; reflexivity|].
  split; [exact Hlen|].
  apply (Hzero ltac:(vm_compute; reflexivity) (mkEnv authority0 40) ballot_open).
Defined.
